(** * ftserver.c: a shallow embedding of the file-transfer server

    The server of [src/ftserver.c] talks to the outside only through system
    calls (sockets, the directory stream, stdio).  The embedding keeps the
    functions of the source as functions of a small monad over a [World]:
    the environment answers every system call, and every call is recorded
    in a trace, so that what the server puts on the data connection can be
    read back from the trace. *)

From Stdlib Require Import String.
From Stdlib Require Import Strings.Byte.
From Stdlib Require Import List ZArith Lia Bool.
Import ListNotations.

Local Open Scope Z_scope.

(** ** Bytes, character arrays and strings *)

(** [const int BUFFER_SIZE = 500;] *)
Definition BUFFER_SIZE : Z := 500.

Definition buffer_len : nat := Z.to_nat BUFFER_SIZE.

(** The characters of a string literal (its terminating NUL is not part of
    the list: the byte read at the end of a list is NUL, see [char_at]). *)
Definition lit (s : string) : list byte := list_byte_of_string s.

Definition NUL : byte := x00.
Definition LF : byte := x0a.
Definition DQUOTE : byte := x22.

(** [unsigned char] value of a byte, as [strcmp] compares them. *)
Definition uchar (c : byte) : Z := Z.of_N (Byte.to_N c).

(** The character at the head of a character array. *)
Definition char_at (s : list byte) : byte := hd NUL s.

(** The characters of an array up to its first NUL. *)
Fixpoint until_nul (s : list byte) : list byte :=
  match s with
  | [] => []
  | c :: r => if Byte.eqb c NUL then [] else c :: until_nul r
  end.

(** Whether an array holds a NUL, that is, a terminated string. *)
Definition terminated (s : list byte) : bool := existsb (Byte.eqb NUL) s.

(** [strcmp(s1, s2)]: difference of the first two characters that differ,
    0 when both strings end together. *)
Fixpoint strcmp (s1 s2 : list byte) {struct s1} : Z :=
  let c1 := char_at s1 in
  let c2 := char_at s2 in
  if negb (Byte.eqb c1 c2) then uchar c1 - uchar c2
  else if Byte.eqb c1 NUL then 0
  else match s1 with
       | [] => 0
       | _ :: r1 => strcmp r1 (tl s2)
       end.

(** [strncmp(s1, s2, n)]: as [strcmp], over at most [n] characters. *)
Fixpoint strncmp (s1 s2 : list byte) (n : nat) {struct n} : Z :=
  match n with
  | O => 0
  | S n' =>
      let c1 := char_at s1 in
      let c2 := char_at s2 in
      if negb (Byte.eqb c1 c2) then uchar c1 - uchar c2
      else if Byte.eqb c1 NUL then 0
      else strncmp (tl s1) (tl s2) n'
  end.

(** [strcat(dest, src)]: the string [dest] holds afterwards. *)
Definition strcat (dest src : list byte) : list byte :=
  until_nul dest ++ until_nul src.

(** [isspace] in the C locale. *)
Definition isspace (c : byte) : bool :=
  Byte.eqb c x20 || ((9 <=? uchar c) && (uchar c <=? 13)).

Definition isdigit (c : byte) : bool := (48 <=? uchar c) && (uchar c <=? 57).

Fixpoint atoi_digits (s : list byte) (acc : Z) : Z :=
  match s with
  | c :: r => if isdigit c then atoi_digits r (10 * acc + (uchar c - 48)) else acc
  | [] => acc
  end.

Fixpoint atoi_skip (s : list byte) : list byte :=
  match s with
  | c :: r => if isspace c then atoi_skip r else s
  | [] => []
  end.

(** The number a string spells: leading white space, an optional sign,
    decimal digits. *)
Definition decimal_value (s : list byte) : Z :=
  match atoi_skip s with
  | c :: r =>
      if Byte.eqb c x2d then - atoi_digits r 0
      else if Byte.eqb c x2b then atoi_digits r 0
      else atoi_digits (c :: r) 0
  | [] => 0
  end.

Definition LONG_MAX : Z := 9223372036854775807.
Definition LONG_MIN : Z := -9223372036854775808.

(** [strtol(s, NULL, 10)] with a 64-bit [long]: a value out of range is
    replaced by the nearest bound. *)
Definition strtol (s : list byte) : Z :=
  Z.max LONG_MIN (Z.min LONG_MAX (decimal_value s)).

(** The conversion of a [long] to a 32-bit [int], as GCC defines it: the
    value modulo 2^32, in the range of [int]. *)
Definition int_of_long (v : Z) : Z :=
  (v + 2147483648) mod 4294967296 - 2147483648.

(** [atoi(s)].  C leaves the result open when the number does not fit an
    [int]; the C library of the platform returns [(int) strtol(s, NULL,
    10)], and that is what is modelled.  The result decides the range check
    of [main] and is the port [main] binds; in the loop it is the data port
    that reaches [connect] and [printf].  The string is read up to the first
    byte that is no part of the number, and the end of the list reads as
    such a byte: an array that holds nothing but white space and digits up
    to its last byte, which [atoi] would read past, is not told apart from
    one that is terminated there. *)
Definition atoi (s : list byte) : Z := int_of_long (strtol s).

(** ** The world outside the process *)

Inductive printf_arg : Type :=
| ArgInt (i : Z)
| ArgStr (s : list byte).

(** One entry per call that leaves the process. *)
Inductive event : Type :=
| EvPrintf (fmt : list byte) (args : list printf_arg)
| EvPerror (msg : list byte)
| EvAccept (servFD ret : Z)
| EvSocket (ret : Z)
| EvConnect (fd port ret : Z)
| EvSleep (secs : Z)
| EvRead (fd count ret : Z)
| EvWrite (fd : Z) (data : list byte) (ret : Z)
| EvClose (fd : Z).

(** What the environment answers.
    - [env_dir]: the names [readdir] yields for ".", in order, or [None]
      when [opendir] fails;
    - [env_fopen]: the bytes of the file [fopen(name, "r")] opens together
      with the [fread] calls on it that fail (by call number), or [None]
      when it cannot be opened;
    - [env_write t count]: what [write] returns at time [t] when asked to
      send [count] bytes;
    - [env_accept], [env_socket], [env_connect]: what these calls return at
      time [t].
    The time of a call is the number of events before it.  The directory
    and the files do not change during one request. *)
Record Env : Type := {
  env_dir : option (list (list byte));
  env_fopen : list byte -> option (list byte * (nat -> bool));
  env_write : nat -> Z -> Z;
  env_accept : nat -> Z;
  env_socket : nat -> Z;
  env_connect : nat -> Z
}.

(** [inbox]: what the coming [read] calls on the control connection get
    (a read takes at most [count] bytes of its entry), [None] for a failed
    read; once it is empty a read returns 0. *)
Record World : Type := {
  env : Env;
  inbox : list (option (list byte));
  trace : list event
}.

Definition now (w : World) : nat := length (trace w).

Definition log (e : event) (w : World) : World :=
  {| env := env w; inbox := inbox w; trace := trace w ++ [e] |}.

(** ** The monad of the embedding *)

(** How a call ends: it returns, the process exits ([error]), the
    behaviour is not defined by C (a read or write outside an array), or
    the fuel of a loop ran out. *)
Inductive outcome (A : Type) : Type :=
| Ret (a : A)
| Exit (status : Z)
| Undefined
| OutOfFuel.

Arguments Ret {A} a.
Arguments Exit {A} status.
Arguments Undefined {A}.
Arguments OutOfFuel {A}.

Definition M (A : Type) : Type := World -> outcome A * World.

Definition ret {A : Type} (a : A) : M A := fun w => (Ret a, w).

Definition bind {A B : Type} (m : M A) (k : A -> M B) : M B :=
  fun w =>
    match m w with
    | (Ret a, w') => k a w'
    | (Exit s, w') => (Exit s, w')
    | (Undefined, w') => (Undefined, w')
    | (OutOfFuel, w') => (OutOfFuel, w')
    end.

Declare Scope io_scope.
Delimit Scope io_scope with io.
Notation "x <- m ;; k" := (bind m (fun x => k))
  (at level 61, m at next level, right associativity) : io_scope.
Notation "' pat <- m ;; k" := (bind m (fun x => match x with pat => k end))
  (at level 61, pat pattern, m at next level, right associativity) : io_scope.
Notation "m ;; k" := (bind m (fun _ => k))
  (at level 61, right associativity) : io_scope.
Local Open Scope io_scope.

Definition undefined {A : Type} : M A := fun w => (Undefined, w).
Definition out_of_fuel {A : Type} : M A := fun w => (OutOfFuel, w).
Definition emit (e : event) : M unit := fun w => (Ret tt, log e w).
Definition ask : M Env := fun w => (Ret (env w), w).
Definition clock : M nat := fun w => (Ret (now w), w).

(** ** System and library calls *)

Definition printf (fmt : list byte) (args : list printf_arg) : M unit :=
  emit (EvPrintf fmt args).

(** [printf]'s [%s] reads the string in the array. *)
Definition string_arg (s : list byte) : M printf_arg :=
  if terminated s then ret (ArgStr (until_nul s)) else undefined.

(** [write(fd, buf, count)] *)
Definition write (fd : Z) (buf : list byte) (count : Z) : M Z :=
  if (Z.of_nat (length buf) <? count) then undefined
  else
    e <- ask ;;
    t <- clock ;;
    let r := env_write e t count in
    emit (EvWrite fd (firstn (Z.to_nat count) buf) r) ;;
    ret r.

(** [read(fd, buf, count)]: the bytes received replace the head of the
    array. *)
Definition read (fd : Z) (buf : list byte) (count : Z) : M (Z * list byte) :=
  if (Z.of_nat (length buf) <? count) then undefined
  else fun w =>
    match inbox w with
    | None :: rest =>
        (Ret (-1, buf),
         {| env := env w; inbox := rest; trace := trace w ++ [EvRead fd count (-1)] |})
    | Some data :: rest =>
        let got := firstn (Z.to_nat count) data in
        let n := Z.of_nat (length got) in
        (Ret (n, got ++ skipn (length got) buf),
         {| env := env w; inbox := rest; trace := trace w ++ [EvRead fd count n] |})
    | [] => (Ret (0, buf), log (EvRead fd count 0) w)
    end.

Definition accept (servFD : Z) : M Z :=
  e <- ask ;; t <- clock ;;
  let r := env_accept e t in
  emit (EvAccept servFD r) ;; ret r.

Definition socket : M Z :=
  e <- ask ;; t <- clock ;;
  let r := env_socket e t in
  emit (EvSocket r) ;; ret r.

Definition connect (fd port : Z) : M Z :=
  e <- ask ;; t <- clock ;;
  let r := env_connect e t in
  emit (EvConnect fd port r) ;; ret r.

Definition sleep (secs : Z) : M unit := emit (EvSleep secs).

Definition close (fd : Z) : M unit := emit (EvClose fd).

(** [malloc(n)]: the contents are indeterminate; no array of the program is
    read before it is written, and the model fills it with zeros. *)
Definition malloc (n : Z) : list byte := repeat NUL (Z.to_nat n).

(** [bzero(buf, n)] *)
Definition bzero (buf : list byte) (n : Z) : M (list byte) :=
  if (Z.of_nat (length buf) <? n) then undefined
  else ret (repeat NUL (Z.to_nat n) ++ skipn (Z.to_nat n) buf).

(** [strcpy(dest, src)]: the string of [src] and its NUL replace the head
    of [dest]. *)
Definition strcpy (dest src : list byte) : M (list byte) :=
  let s := until_nul src in
  if (length dest <=? length s)%nat then undefined
  else ret (s ++ NUL :: skipn (S (length s)) dest).

(** ** Open files *)

Record FILE : Type := {
  f_rest : list byte;        (* the bytes not read yet *)
  f_eof : bool;              (* the end-of-file indicator *)
  f_err : bool;              (* the error indicator *)
  f_calls : nat;             (* fread calls so far *)
  f_faults : nat -> bool     (* the fread calls that fail *)
}.

(** [fopen(name, "r")]: [None] is the null pointer. *)
Definition fopen (fileName : list byte) : M (option FILE) :=
  e <- ask ;;
  match env_fopen e (until_nul fileName) with
  | Some (content, faults) =>
      ret (Some {| f_rest := content; f_eof := false; f_err := false;
                   f_calls := 0; f_faults := faults |})
  | None => ret None
  end.

Definition feof (f : FILE) : bool := f_eof f.

(** [fread(buf, 1, count, f)]: the number of bytes read, the array and the
    stream afterwards.  A read that finds fewer than [count] bytes sets the
    end-of-file indicator; a failed read transfers nothing and sets the
    error indicator only. *)
Definition fread (buf : list byte) (count : nat) (f : FILE)
  : Z * list byte * FILE :=
  if f_faults f (f_calls f) then
    (0, buf,
     {| f_rest := f_rest f; f_eof := f_eof f; f_err := true;
        f_calls := S (f_calls f); f_faults := f_faults f |})
  else
    let got := firstn count (f_rest f) in
    (Z.of_nat (length got), got ++ skipn (length got) buf,
     {| f_rest := skipn count (f_rest f);
        f_eof := f_eof f || (length got <? count)%nat;
        f_err := f_err f;
        f_calls := S (f_calls f); f_faults := f_faults f |}).

(** ** The functions of ftserver.c *)

(** [error]: [perror(msg); exit(1);] *)
Definition error {A : Type} (msg : list byte) : M A :=
  fun w => (Exit 1, log (EvPerror msg) w).

Definition createSocket : M Z :=
  socketFD <- socket ;;
  if socketFD <? 0 then error (lit "ERROR opening socket") else ret socketFD.

Definition sendMsg (socketFD : Z) (buffer msg : list byte) : M (list byte) :=
  buffer <- bzero buffer BUFFER_SIZE ;;
  buffer <- strcpy buffer msg ;;
  success <- write socketFD buffer BUFFER_SIZE ;;
  if success <? 0 then error (lit "ERROR writing message to socket.")
  else ret buffer.

Definition recMsg (buffer : list byte) (socketFD : Z) : M (list byte) :=
  buffer <- bzero buffer BUFFER_SIZE ;;
  '(n, buffer) <- read socketFD buffer BUFFER_SIZE ;;
  if n <? 0 then error (lit "ERROR reading from socket") else ret buffer.

Definition acceptClient (servFD : Z) : M Z :=
  controlFD <- accept servFD ;;
  if controlFD <? 0 then error (lit "ERROR on accept")
  else printf (lit "Connection from client." ++ [LF]) [] ;; ret controlFD.

(** The [while((dir = readdir(d)) != NULL)] loop of [sendDir]. *)
Fixpoint sendDir_loop (socketFD : Z) (buffer : list byte)
    (entries : list (list byte)) : M (list byte) :=
  match entries with
  | [] => ret buffer
  | d_name :: entries' =>
      buffer <- sendMsg socketFD buffer (strcat d_name [LF]) ;;
      sendDir_loop socketFD buffer entries'
  end.

(** [closedir] is called on the null stream when [opendir] failed: the C
    library of the platform (glibc) then returns -1, and the result is not
    looked at. *)
Definition sendDir (socketFD portNum : Z) : M unit :=
  let buffer := malloc BUFFER_SIZE in
  e <- ask ;;
  match env_dir e with
  | Some entries =>
      printf (lit "Sending directory requested on port %i" ++ [LF])
             [ArgInt portNum] ;;
      buffer <- sendDir_loop socketFD buffer entries ;;
      _ <- sendMsg socketFD buffer (lit "~done" ++ [LF]) ;;
      ret tt
  | None => ret tt
  end.

(** The [while] loop of [inDir]. *)
Fixpoint inDir_loop (fileName : list byte) (entries : list (list byte))
    (found : Z) : Z :=
  match entries with
  | [] => found
  | d_name :: entries' =>
      inDir_loop fileName entries'
        (if strcmp fileName d_name =? 0 then 1 else found)
  end.

Definition inDir (fileName : list byte) : M Z :=
  e <- ask ;;
  match env_dir e with
  | Some entries => ret (inDir_loop fileName entries 0)
  | None => ret 0
  end.

(** The [while(!feof(file))] loop of [sendFile]; one unit of fuel per test
    of the loop condition. *)
Fixpoint sendFile_loop (fuel : nat) (file : FILE) (buffer : list byte)
    (socketFD : Z) : M unit :=
  match fuel with
  | O => out_of_fuel
  | S fuel' =>
      if negb (feof file) then
        let '(numBytesRead, buffer, file) := fread buffer 500 file in
        success <- write socketFD buffer numBytesRead ;;
        if success <? 0 then error (lit "ERROR writing message to socket.")
        else sendFile_loop fuel' file buffer socketFD
      else ret tt
  end.

Definition sendFile (fuel : nat) (fileName : list byte)
    (socketFD portNum : Z) : M unit :=
  let buffer := malloc BUFFER_SIZE in
  file <- fopen fileName ;;
  match file with
  | None => error (lit "Can't open file." ++ [LF])
  | Some file =>
      name <- string_arg fileName ;;
      printf (lit "Sending " ++ [DQUOTE] ++ lit "%s" ++ [DQUOTE]
                ++ lit " requested on port %i." ++ [LF])
             [name; ArgInt portNum] ;;
      sendFile_loop fuel file buffer socketFD
  end.

(** [handleRequest]; the array is returned as the calls leave it. *)
Definition handleRequest (fuel : nat) (buffer : list byte)
    (socketFD portNum : Z) : M (list byte) :=
  if strncmp buffer (lit "-l") 2 =? 0 then
    printf (lit "List directory requested on port %i." ++ [LF])
           [ArgInt portNum] ;;
    buffer <- sendMsg socketFD buffer (lit "dir" ++ [LF]) ;;
    sendDir socketFD portNum ;;
    ret buffer
  else if negb (strncmp buffer (lit "%none") 5 =? 0) then
    name <- string_arg buffer ;;
    printf (lit "File " ++ [DQUOTE] ++ lit "%s" ++ [DQUOTE]
              ++ lit " requested on port %i." ++ [LF])
           [name; ArgInt portNum] ;;
    found <- inDir buffer ;;
    if negb (found =? 0) then
      fileName <- strcpy (malloc BUFFER_SIZE) buffer ;;
      buffer <- sendMsg socketFD buffer (lit "fil" ++ [LF]) ;;
      sendFile fuel fileName socketFD portNum ;;
      ret buffer
    else
      printf (lit "File not found. Sending error message to client: %i."
                ++ [LF]) [ArgInt portNum] ;;
      sendMsg socketFD buffer (lit "nof" ++ [LF])
  else
    sendMsg socketFD buffer (lit "unk" ++ [LF]).

(** One turn of the [while(1)] loop of [main]: a client is accepted, the
    command and the data port are read on the control connection, the data
    connection is opened, the request is handled and the data connection
    is closed. *)
Definition main_loop_body (fuel : nat) (listenSockFD : Z)
    (buffer : list byte) : M (list byte) :=
  connectSockFD <- acceptClient listenSockFD ;;
  buffer <- recMsg buffer connectSockFD ;;
  dataPortStr <- recMsg (malloc BUFFER_SIZE) connectSockFD ;;
  let dataPort := atoi dataPortStr in
  sleep 1 ;;
  dataSockFD <- createSocket ;;
  r <- connect dataSockFD dataPort ;;
  (if r <? 0 then error (lit "ERROR establishing data connection." ++ [LF])
   else ret tt) ;;
  buffer <- handleRequest fuel buffer dataSockFD dataPort ;;
  printf (lit "Closing data connection." ++ [LF]) [] ;;
  printf [LF; LF] [] ;;
  close dataSockFD ;;
  ret buffer.

(** ** What is observed on a trace *)

(** A message as [sendMsg] frames it: the text, then zeros up to the size
    of the buffer. *)
Definition frame (msg : list byte) : list byte :=
  msg ++ repeat NUL (buffer_len - length msg).

(** The four response tags. *)
Definition TAG_DIR : list byte := lit "dir" ++ [LF].
Definition TAG_FIL : list byte := lit "fil" ++ [LF].
Definition TAG_NOF : list byte := lit "nof" ++ [LF].
Definition TAG_UNK : list byte := lit "unk" ++ [LF].
Definition DONE : list byte := lit "~done" ++ [LF].

(** The buffers handed to [write], in order. *)
Fixpoint written (t : list event) : list (list byte) :=
  match t with
  | [] => []
  | EvWrite _ data _ :: t' => data :: written t'
  | _ :: t' => written t'
  end.

(** The bytes a [write] got through: the first [ret] bytes of its buffer,
    none when it failed. *)
Fixpoint transmitted (t : list event) : list byte :=
  match t with
  | [] => []
  | EvWrite _ data r :: t' => firstn (Z.to_nat r) data ++ transmitted t'
  | _ :: t' => transmitted t'
  end.

(** The events on the connection [fd]: its writes and its close. *)
Definition on_conn (fd : Z) (e : event) : bool :=
  match e with
  | EvWrite fd' _ _ => fd' =? fd
  | EvClose fd' => fd' =? fd
  | _ => false
  end.

Definition conn_events (fd : Z) (t : list event) : list event :=
  filter (on_conn fd) t.

(** The events a call added to the trace. *)
Definition added (w w' : World) : list event :=
  skipn (length (trace w)) (trace w').

(** No write of a trace goes to another descriptor than [fd]. *)
Definition writes_on (fd : Z) (t : list event) : Prop :=
  Forall (fun e => match e with EvWrite fd' _ _ => fd' = fd | _ => True end) t.

(** A stream as [fopen] returns it. *)
Definition fresh_file (content : list byte) (faults : nat -> bool) : FILE :=
  {| f_rest := content; f_eof := false; f_err := false;
     f_calls := 0; f_faults := faults |}.

(** Environments in which the transport takes every byte it is given. *)
Definition full_writes (e : Env) : Prop :=
  forall t count, 0 <= count -> env_write e t count = count.

(** Environments in which no [write] fails. *)
Definition no_write_error (e : Env) : Prop :=
  forall t count, 0 <= count -> 0 <= env_write e t count.

(** What one call of [sendMsg] does: one [write] of the framed message,
    and [error] when the transport answers with a negative number. *)
Definition sendMsg_result (socketFD : Z) (msg : list byte) (w : World)
  : outcome (list byte) * World :=
  let r := env_write (env w) (now w) BUFFER_SIZE in
  let w1 := log (EvWrite socketFD (frame (until_nul msg)) r) w in
  if r <? 0
  then (Exit 1, log (EvPerror (lit "ERROR writing message to socket.")) w1)
  else (Ret (frame (until_nul msg)), w1).

(** A call only adds events to the trace, writes to no descriptor but
    [fd], and leaves the environment as it is. *)
Definition steady {A : Type} (fd : Z) (m : M A) : Prop :=
  forall w, exists evs,
    trace (snd (m w)) = trace w ++ evs /\
    env (snd (m w)) = env w /\
    writes_on fd evs.

(** What [inDir] returns in an environment. *)
Definition dir_lookup (e : Env) (fileName : list byte) : Z :=
  match env_dir e with
  | Some entries => inDir_loop fileName entries 0
  | None => 0
  end.

(** The names of the working directory. *)
Definition dir_names (e : Env) : list (list byte) :=
  match env_dir e with
  | Some entries => map until_nul entries
  | None => []
  end.

(** The line [sendDir] sends for an entry. *)
Definition entry_line (d_name : list byte) : list byte := strcat d_name [LF].

(** Run in [w], a call adds events whose written buffers satisfy [P]
    (and it is steady). *)
Definition responds {A : Type} (fd : Z) (m : M A) (w : World)
    (P : list (list byte) -> Prop) : Prop :=
  exists evs,
    trace (snd (m w)) = trace w ++ evs /\
    env (snd (m w)) = env w /\
    writes_on fd evs /\
    P (written evs).

(** The answer to a file request as the data connection [fd] sees it: the
    file-follows tag, the chunks, the close. *)
Definition file_response (fd : Z) (content : list byte)
    (evs : list event) : Prop :=
  exists chunks,
    evs = EvWrite fd (frame TAG_FIL) BUFFER_SIZE
            :: map (fun c => EvWrite fd c (Z.of_nat (length c))) chunks
            ++ [EvClose fd] /\
    concat chunks = content /\
    Forall (fun c => (length c <= 500)%nat) chunks.

(** The dispatcher takes the listing path: its first write is the
    listing-follows tag. *)
Definition takes_listing_path (fuel : nat) (buffer : list byte)
    (fd portNum : Z) (w : World) : Prop :=
  exists rest,
    written (added w (snd (handleRequest fuel buffer fd portNum w))) =
    frame TAG_DIR :: rest.

(** ** Sample worlds *)

Fixpoint bytes_eqb (a b : list byte) : bool :=
  match a, b with
  | [], [] => true
  | x :: a', y :: b' => Byte.eqb x y && bytes_eqb a' b'
  | _, _ => false
  end.

(** A working directory with two files, on a transport without faults. *)
Definition sample_env : Env := {|
  env_dir := Some [lit "."; lit ".."; lit "notes.txt"; lit "-log.txt"];
  env_fopen := fun name =>
    if bytes_eqb name (lit "notes.txt")
    then Some (lit "hello" ++ [LF], fun _ => false)
    else if bytes_eqb name (lit "-log.txt")
    then Some (lit "abc" ++ [LF], fun _ => false)
    else None;
  env_write := fun _ count => count;
  env_accept := fun _ => 4;
  env_socket := fun _ => 5;
  env_connect := fun _ => 0
|}.

(** The same, with a transport that takes 3 bytes of a write of 6. *)
Definition short_write_env : Env := {|
  env_dir := env_dir sample_env;
  env_fopen := env_fopen sample_env;
  env_write := fun _ count => if count =? 6 then 3 else count;
  env_accept := env_accept sample_env;
  env_socket := env_socket sample_env;
  env_connect := env_connect sample_env
|}.

(** The same, with the entry "." as Linux serves it: a directory opens
    for reading, and every [fread] on it fails. *)
Definition directory_read_env : Env := {|
  env_dir := env_dir sample_env;
  env_fopen := fun name =>
    if bytes_eqb name (lit ".")
    then Some ([], fun _ => true)
    else env_fopen sample_env name;
  env_write := env_write sample_env;
  env_accept := env_accept sample_env;
  env_socket := env_socket sample_env;
  env_connect := env_connect sample_env
|}.

(** The same, with a directory that cannot be opened. *)
Definition no_dir_env : Env := {|
  env_dir := None;
  env_fopen := env_fopen sample_env;
  env_write := env_write sample_env;
  env_accept := env_accept sample_env;
  env_socket := env_socket sample_env;
  env_connect := env_connect sample_env
|}.

(** A client that sends [cmd] and the data port 51000. *)
Definition request_world (e : Env) (cmd : list byte) : World :=
  {| env := e; inbox := [Some cmd; Some (lit "51000")]; trace := [] |}.

(** A world in which the data connection is already open. *)
Definition serving_world (e : Env) : World :=
  {| env := e; inbox := []; trace := [] |}.

(** ** The start of the process *)

(** The calls [main] makes before its loop leave the process too; they
    have a trace of their own. *)
Inductive boot_event : Type :=
| BtStderr (msg : list byte)
| BtPrintf (fmt : list byte) (args : list printf_arg)
| BtPerror (msg : list byte)
| BtSocket (ret : Z)
| BtBind (fd port ret : Z)
| BtListen (fd backlog ret : Z).

(** What [socket], [bind] and [listen] answer at the start. *)
Record BootEnv : Type := {
  boot_socket : Z;
  boot_bind : Z;
  boot_listen : Z
}.

(** A call before the loop: how it ends, and what it added to the
    trace. *)
Definition Boot (A : Type) : Type := outcome A * list boot_event.

Definition boot_then {A B : Type} (m : Boot A) (k : A -> Boot B) : Boot B :=
  match m with
  | (Ret a, t) => let (o, t') := k a in (o, t ++ t')
  | (Exit s, t) => (Exit s, t)
  | (Undefined, t) => (Undefined, t)
  | (OutOfFuel, t) => (OutOfFuel, t)
  end.

(** [error], before the loop. *)
Definition boot_error {A : Type} (msg : list byte) : Boot A :=
  (Exit 1, [BtPerror msg]).

(** [createSocket], as [main] calls it for the listening socket. *)
Definition createSocket_boot (b : BootEnv) : Boot Z :=
  boot_then (Ret (boot_socket b), [BtSocket (boot_socket b)])
    (fun socketFD =>
       if socketFD <? 0 then boot_error (lit "ERROR opening socket")
       else (Ret socketFD, [])).

(** [htons(portNum)]: the port as 16 bits hold it. *)
Definition htons_port (portNum : Z) : Z := portNum mod 65536.

(** [startUp]: the result of [listen] is not looked at. *)
Definition startUp (b : BootEnv) (portNum sockFD : Z) : Boot unit :=
  boot_then
    (Ret (boot_bind b), [BtBind sockFD (htons_port portNum) (boot_bind b)])
    (fun r =>
       if r <? 0 then boot_error (lit "ERROR on binding")
       else
         (Ret tt,
          [BtListen sockFD 5 (boot_listen b);
           BtPrintf (lit "Server open and listening on port %i." ++ [LF])
             [ArgInt portNum]])).

Definition USAGE : list byte :=
  lit "usage: ./executableName portNum." ++ [LF; x09]
    ++ lit "portNum: must be in range 4,000-65,000." ++ [LF].

(** [main] up to its loop: the arguments are checked, the listening socket
    is opened and bound.  [argv] holds [argc] strings.  The port and the
    listening descriptor are returned. *)
Definition main_boot (argv : list (list byte)) (b : BootEnv) : Boot (Z * Z) :=
  let argc := Z.of_nat (length argv) in
  if argc <? 2 then
    (Exit 1, [BtStderr (lit "ERROR, no port provided." ++ [LF]);
              BtPrintf USAGE []])
  else if (atoi (nth 1 argv []) <? 4000) || (atoi (nth 1 argv []) >? 65000)
  then
    (Exit 1, [BtStderr (lit "ERROR, invalid port number." ++ [LF]);
              BtPrintf USAGE []])
  else
    let portNum := atoi (nth 1 argv []) in
    boot_then (createSocket_boot b) (fun listenSockFD =>
    boot_then (startUp b portNum listenSockFD) (fun _ =>
    (Ret (portNum, listenSockFD), []))).

(** ** Invariants of a call *)

(** A call only adds events that satisfy [P], and when it ends the process
    the exit status is 1. *)
Definition confined {A : Type} (P : event -> Prop) (m : M A) : Prop :=
  forall w, exists evs,
    trace (snd (m w)) = trace w ++ evs /\
    Forall P evs /\
    (forall s, fst (m w) = Exit s -> s = 1).

(** The events of the dispatcher: console output and writes on [fd]. *)
Definition dispatch_event (fd : Z) (e : event) : Prop :=
  match e with
  | EvPrintf _ _ => True
  | EvPerror _ => True
  | EvWrite fd' _ _ => fd' = fd
  | _ => False
  end.

(** The closes of a trace. *)
Fixpoint closes (t : list event) : list Z :=
  match t with
  | [] => []
  | EvClose fd :: t' => fd :: closes t'
  | _ :: t' => closes t'
  end.

(** Run in the environment [e], a call stays within what C defines, keeps
    the environment, and what it returns satisfies [Q]. *)
Definition safe {A : Type} (e : Env) (Q : A -> Prop) (m : M A) : Prop :=
  forall w, env w = e ->
    match m w with
    | (Ret a, w') => Q a /\ env w' = e
    | (Undefined, _) => False
    | (Exit _, w') => env w' = e
    | (OutOfFuel, w') => env w' = e
    end.

(** What the next [read] delivers. *)
Definition next_read (w : World) : list byte :=
  match inbox w with
  | Some data :: _ => data
  | _ => []
  end.

(** What the [read] after the next one delivers. *)
Definition following_read (w : World) : list byte :=
  match inbox w with
  | _ :: Some data :: _ => data
  | _ => []
  end.

(** What [recMsg] leaves in a buffer into which [data] came: the bytes
    that fit, then the zeros of [bzero]. *)
Definition received (data : list byte) : list byte :=
  frame (firstn buffer_len data).

(** A write the transport did not refuse. *)
Definition write_taken (e : event) : Prop :=
  match e with
  | EvWrite _ _ r => 0 <= r
  | _ => True
  end.

(** A call in which a refused write is fatal: either no write it made was
    refused, or the process exited with status 1 right after the first
    refused write, with only the diagnostic after it. *)
Definition stops_at_failed_write {A : Type} (m : M A) : Prop :=
  forall w, exists evs,
    trace (snd (m w)) = trace w ++ evs /\
    (Forall write_taken evs \/
     (fst (m w) = Exit 1 /\
      exists pre fd data r msg,
        evs = pre ++ [EvWrite fd data r; EvPerror msg] /\
        r < 0 /\ Forall write_taken pre)).

(** The sample directory on a transport that refuses every write. *)
Definition broken_pipe_env : Env := {|
  env_dir := env_dir sample_env;
  env_fopen := env_fopen sample_env;
  env_write := fun _ _ => -1;
  env_accept := env_accept sample_env;
  env_socket := env_socket sample_env;
  env_connect := env_connect sample_env
|}.

(** The sample directory with a file that is listed and cannot be
    opened. *)
Definition unreadable_env : Env := {|
  env_dir := env_dir sample_env;
  env_fopen := fun _ => None;
  env_write := env_write sample_env;
  env_accept := env_accept sample_env;
  env_socket := env_socket sample_env;
  env_connect := env_connect sample_env
|}.

(** ** Running a call step by step

    Each tactic runs the call at the head of the goal and leaves its
    continuation applied to the world it produced. *)

Ltac step_ret := unfold bind at 1; unfold ret at 1; cbv beta iota.
Ltac step_emit := unfold bind at 1; unfold emit at 1; cbv beta iota.
Ltac step_printf :=
  unfold bind at 1; unfold printf at 1, emit at 1; cbv beta iota.
Ltac step_ask := unfold bind at 1; unfold ask at 1; cbv beta iota.
Ltac step_clock := unfold bind at 1; unfold clock at 1; cbv beta iota.

(** * Properties *)

(** ** Bytes and strings *)

Lemma byte_eqb_eq (a b : byte) : Byte.eqb a b = true <-> a = b.
Proof.
  split; intro H.
  - now apply Byte.byte_dec_bl.
  - now apply Byte.byte_dec_lb.
Qed.

Lemma byte_eqb_refl (a : byte) : Byte.eqb a a = true.
Proof. now apply byte_eqb_eq. Qed.

Lemma byte_eqb_neq (a b : byte) : Byte.eqb a b = false <-> a <> b.
Proof.
  split; intro H.
  - intro E. apply byte_eqb_eq in E. congruence.
  - destruct (Byte.eqb a b) eqn:E; [apply byte_eqb_eq in E; contradiction | reflexivity].
Qed.

Lemma byte_eqb_sym (a b : byte) : Byte.eqb a b = Byte.eqb b a.
Proof.
  destruct (Byte.eqb b a) eqn:E.
  - apply byte_eqb_eq in E. subst. apply byte_eqb_refl.
  - apply byte_eqb_neq in E. apply byte_eqb_neq. congruence.
Qed.

Lemma uchar_inj (a b : byte) : uchar a = uchar b -> a = b.
Proof.
  unfold uchar. intro H. apply N2Z.inj in H.
  assert (E : Byte.of_N (Byte.to_N a) = Byte.of_N (Byte.to_N b)) by now rewrite H.
  rewrite !Byte.of_to_N in E. congruence.
Qed.

Lemma uchar_diff (a b : byte) : a <> b -> uchar a - uchar b <> 0.
Proof. intros H E. apply H, uchar_inj. lia. Qed.

Lemma buffer_len_eq : buffer_len = 500%nat.
Proof. reflexivity. Qed.

Lemma terminated_In (s : list byte) : terminated s = true <-> In NUL s.
Proof.
  unfold terminated. rewrite existsb_exists. split.
  - intros [x [Hin Hx]]. apply byte_eqb_eq in Hx. now subst.
  - intro H. exists NUL. split; [assumption | apply byte_eqb_refl].
Qed.

Lemma until_nul_no_nul (s : list byte) : ~ In NUL (until_nul s).
Proof.
  induction s as [|c r IH]; simpl; [tauto|].
  destruct (Byte.eqb c NUL) eqn:E; simpl; [tauto|].
  apply byte_eqb_neq in E. intros [H|H]; [congruence | tauto].
Qed.

Lemma until_nul_id (s : list byte) : ~ In NUL s -> until_nul s = s.
Proof.
  induction s as [|c r IH]; simpl; intro H; [reflexivity|].
  destruct (Byte.eqb c NUL) eqn:E.
  - apply byte_eqb_eq in E. subst. tauto.
  - f_equal. apply IH. tauto.
Qed.

Lemma until_nul_idem (s : list byte) : until_nul (until_nul s) = until_nul s.
Proof. apply until_nul_id, until_nul_no_nul. Qed.

Lemma until_nul_length (s : list byte) : (length (until_nul s) <= length s)%nat.
Proof.
  induction s as [|c r IH]; simpl; [lia|].
  destruct (Byte.eqb c NUL); simpl; lia.
Qed.

Lemma until_nul_app_nul (s t : list byte) :
  ~ In NUL s -> until_nul (s ++ NUL :: t) = s.
Proof.
  induction s as [|c r IH]; simpl; intro H; [reflexivity|].
  destruct (Byte.eqb c NUL) eqn:E.
  - apply byte_eqb_eq in E. subst. tauto.
  - f_equal. apply IH. tauto.
Qed.

Lemma until_nul_terminated_length (s : list byte) :
  terminated s = true -> (length (until_nul s) < length s)%nat.
Proof.
  unfold terminated.
  induction s as [|c r IH]; cbn [existsb until_nul length]; [discriminate|].
  rewrite (byte_eqb_sym NUL c).
  destruct (Byte.eqb c NUL) eqn:E; cbn [length orb]; [lia|].
  intro H. apply IH in H. lia.
Qed.

(** [strcmp] is 0 exactly when the two strings are the same. *)
Lemma strcmp_zero (s1 s2 : list byte) :
  strcmp s1 s2 = 0 <-> until_nul s1 = until_nul s2.
Proof.
  revert s2. induction s1 as [|c1 r1 IH]; intros s2.
  - destruct s2 as [|c2 r2]; cbn [strcmp char_at hd until_nul tl].
    + rewrite byte_eqb_refl. cbn [negb]. tauto.
    + rewrite (byte_eqb_sym NUL c2).
      destruct (Byte.eqb c2 NUL) eqn:E; cbn [negb].
      * rewrite byte_eqb_refl. tauto.
      * apply byte_eqb_neq in E. split; [|discriminate].
        intro H. exfalso. revert H. apply uchar_diff. congruence.
  - destruct s2 as [|c2 r2]; cbn [strcmp char_at hd until_nul tl].
    + destruct (Byte.eqb c1 NUL) eqn:E; cbn [negb]; [tauto|].
      apply byte_eqb_neq in E. split; [|discriminate].
      intro H. exfalso. revert H. now apply uchar_diff.
    + destruct (Byte.eqb c1 c2) eqn:E12; cbn [negb].
      * apply byte_eqb_eq in E12. subst c2.
        destruct (Byte.eqb c1 NUL) eqn:E; [tauto|].
        rewrite IH. split; [congruence|]. intro H. now inversion H.
      * apply byte_eqb_neq in E12.
        split.
        -- intro H. exfalso. revert H. now apply uchar_diff.
        -- destruct (Byte.eqb c1 NUL) eqn:E1, (Byte.eqb c2 NUL) eqn:E2;
             try discriminate.
           ++ apply byte_eqb_eq in E1, E2. congruence.
           ++ intro H. inversion H. contradiction.
Qed.

(** [strncmp] against a string of [n] characters is 0 exactly when the
    array begins with that string. *)
Lemma strncmp_prefix (p s : list byte) :
  ~ In NUL p ->
  strncmp s p (length p) = 0 <-> firstn (length p) s = p.
Proof.
  revert s. induction p as [|c p' IH]; intros s Hp.
  - simpl. tauto.
  - assert (Hc : c <> NUL) by (intro; subst; simpl in Hp; tauto).
    assert (Hp' : ~ In NUL p') by (simpl in Hp; tauto).
    destruct s as [|d s']; cbn [length strncmp char_at hd firstn tl].
    + rewrite (byte_eqb_sym NUL c).
      apply byte_eqb_neq in Hc. rewrite Hc. cbn [negb].
      apply byte_eqb_neq in Hc.
      split; [|discriminate].
      intro H. exfalso. revert H. apply uchar_diff. congruence.
    + destruct (Byte.eqb d c) eqn:E; cbn [negb].
      * apply byte_eqb_eq in E. subst d.
        apply byte_eqb_neq in Hc. rewrite Hc.
        rewrite IH by assumption. split; congruence.
      * apply byte_eqb_neq in E. split.
        -- intro H. exfalso. revert H. now apply uchar_diff.
        -- intro H. congruence.
Qed.

Lemma lit_dash_l_no_nul : ~ In NUL (lit "-l").
Proof. simpl. unfold NUL. intuition discriminate. Qed.

Lemma lit_none_no_nul : ~ In NUL (lit "%none").
Proof. simpl. unfold NUL. intuition discriminate. Qed.

(** The two tests of the dispatcher, read as tests of a prefix. *)
Lemma is_listing_iff (buffer : list byte) :
  (strncmp buffer (lit "-l") 2 =? 0) = true <-> firstn 2 buffer = lit "-l".
Proof.
  rewrite Z.eqb_eq. exact (strncmp_prefix (lit "-l") buffer lit_dash_l_no_nul).
Qed.

Lemma is_sentinel_iff (buffer : list byte) :
  (strncmp buffer (lit "%none") 5 =? 0) = true <-> firstn 5 buffer = lit "%none".
Proof.
  rewrite Z.eqb_eq. exact (strncmp_prefix (lit "%none") buffer lit_none_no_nul).
Qed.

(** ** The model on the scenarios of the specification *)

Example atoi_port : atoi (frame (lit "51000")) = 51000.
Proof. reflexivity. Qed.

(** A number that does not fit an [int] is reduced modulo 2^32; one that
    does not fit a [long] either is first replaced by the bound. *)
Example atoi_beyond_int :
  atoi (lit "4294971296") = 4000 /\
  atoi (lit "2147483648") = -2147483648 /\
  atoi (lit "99999999999999999999") = -1 /\
  atoi (lit " -42abc") = -42.
Proof. repeat split. Qed.

Example strncmp_listing_command :
  strncmp (frame (lit "-l")) (lit "-l") 2 = 0.
Proof. reflexivity. Qed.

Example strcmp_orders_bytes : strcmp (lit "a.txt") (lit "b.txt") = -1.
Proof. reflexivity. Qed.

(** "notes.txt" holds "hello" and a newline: the client gets the tag, one
    chunk of 6 bytes, and the close. *)
Example scenario_notes :
  conn_events 5
    (trace (snd (main_loop_body 5 3 (malloc BUFFER_SIZE)
                   (request_world sample_env (lit "notes.txt"))))) =
  [EvWrite 5 (frame TAG_FIL) 500;
   EvWrite 5 (lit "hello" ++ [LF]) 6;
   EvClose 5].
Proof. vm_compute. reflexivity. Qed.

(** The sentinel for "no file name" is answered with the unknown-command
    tag alone. *)
Example scenario_sentinel :
  conn_events 5
    (trace (snd (main_loop_body 5 3 (malloc BUFFER_SIZE)
                   (request_world sample_env (lit "%none"))))) =
  [EvWrite 5 (frame TAG_UNK) 500; EvClose 5].
Proof. vm_compute. reflexivity. Qed.

(** ** Buffers *)

Lemma skipn_repeat_nul (k n : nat) :
  skipn k (repeat NUL n) = repeat NUL (n - k).
Proof.
  revert n. induction k as [|k IH]; intros n.
  - now rewrite Nat.sub_0_r.
  - destruct n as [|n]; simpl; [reflexivity | apply IH].
Qed.

Lemma frame_length (msg : list byte) :
  (length msg <= buffer_len)%nat -> length (frame msg) = buffer_len.
Proof.
  intro H. unfold frame. rewrite length_app, repeat_length. lia.
Qed.

Lemma frame_until_nul (msg : list byte) :
  ~ In NUL msg -> (length msg < buffer_len)%nat ->
  until_nul (frame msg) = msg.
Proof.
  intros Hn Hl. unfold frame.
  replace (buffer_len - length msg)%nat with (S (buffer_len - S (length msg)))
    by lia.
  simpl. now apply until_nul_app_nul.
Qed.

Lemma frame_terminated (msg : list byte) :
  (length msg < buffer_len)%nat -> terminated (frame msg) = true.
Proof.
  intro Hl. apply terminated_In. unfold frame. apply in_or_app. right.
  replace (buffer_len - length msg)%nat with (S (buffer_len - S (length msg)))
    by lia.
  now left.
Qed.

Lemma frame_inj (a b : list byte) :
  ~ In NUL a -> ~ In NUL b ->
  (length a < buffer_len)%nat -> (length b < buffer_len)%nat ->
  frame a = frame b -> a = b.
Proof.
  intros Ha Hb La Lb E.
  rewrite <- (frame_until_nul a Ha La), <- (frame_until_nul b Hb Lb).
  now rewrite E.
Qed.

Lemma bzero_run (buffer : list byte) (w : World) :
  length buffer = buffer_len ->
  bzero buffer BUFFER_SIZE w = (Ret (repeat NUL buffer_len), w).
Proof.
  intro H. unfold bzero. rewrite H.
  change (Z.of_nat buffer_len <? BUFFER_SIZE) with false. cbv iota.
  change (Z.to_nat BUFFER_SIZE) with buffer_len.
  rewrite skipn_all2 by lia. now rewrite app_nil_r.
Qed.

Lemma strcpy_zeros (src : list byte) (w : World) :
  (length (until_nul src) < buffer_len)%nat ->
  strcpy (repeat NUL buffer_len) src w = (Ret (frame (until_nul src)), w).
Proof.
  intro H. unfold strcpy. rewrite repeat_length.
  replace (buffer_len <=? length (until_nul src))%nat with false
    by (symmetry; apply Nat.leb_gt; exact H).
  unfold ret, frame. do 2 f_equal.
  rewrite skipn_repeat_nul.
  replace (buffer_len - length (until_nul src))%nat
    with (S (buffer_len - S (length (until_nul src)))) by lia.
  reflexivity.
Qed.

Lemma write_run (fd : Z) (buf : list byte) (count : Z) (w : World) :
  count <= Z.of_nat (length buf) ->
  write fd buf count w =
  (Ret (env_write (env w) (now w) count),
   log (EvWrite fd (firstn (Z.to_nat count) buf)
          (env_write (env w) (now w) count)) w).
Proof.
  intro H. unfold write.
  replace (Z.of_nat (length buf) <? count) with false
    by (symmetry; apply Z.ltb_ge; exact H).
  reflexivity.
Qed.

Lemma sendMsg_run (socketFD : Z) (buffer msg : list byte) (w : World) :
  length buffer = buffer_len ->
  (length (until_nul msg) < buffer_len)%nat ->
  sendMsg socketFD buffer msg w = sendMsg_result socketFD msg w.
Proof.
  intros Hb Hm. unfold sendMsg, sendMsg_result.
  unfold bind at 1. rewrite bzero_run by assumption.
  unfold bind at 1. rewrite strcpy_zeros by assumption.
  unfold bind at 1. rewrite write_run.
  - change (Z.to_nat BUFFER_SIZE) with buffer_len.
    rewrite <- (frame_length (until_nul msg)) at 1 by lia.
    rewrite firstn_all.
    destruct (env_write (env w) (now w) BUFFER_SIZE <? 0); reflexivity.
  - rewrite frame_length by lia. apply Z.eq_le_incl. reflexivity.
Qed.

(** ** Calls and the trace *)

Lemma added_app (w w' : World) (evs : list event) :
  trace w' = trace w ++ evs -> added w w' = evs.
Proof.
  intro H. unfold added. rewrite H.
  rewrite skipn_app, skipn_all, Nat.sub_diag. reflexivity.
Qed.

Lemma written_app (a b : list event) :
  written (a ++ b) = written a ++ written b.
Proof.
  induction a as [|e a IH]; [reflexivity|].
  destruct e; simpl; rewrite ?IH; reflexivity.
Qed.

Lemma conn_events_app (fd : Z) (a b : list event) :
  conn_events fd (a ++ b) = conn_events fd a ++ conn_events fd b.
Proof. apply filter_app. Qed.

Lemma writes_on_app (fd : Z) (a b : list event) :
  writes_on fd a -> writes_on fd b -> writes_on fd (a ++ b).
Proof. intros Ha Hb. apply Forall_app. now split. Qed.

Lemma steady_ret {A : Type} (fd : Z) (a : A) : steady fd (ret a).
Proof.
  intro w. exists []. simpl. rewrite app_nil_r.
  repeat split. constructor.
Qed.

Lemma steady_undefined {A : Type} (fd : Z) : steady fd (@undefined A).
Proof.
  intro w. exists []. simpl. rewrite app_nil_r.
  repeat split. constructor.
Qed.

Lemma steady_out_of_fuel {A : Type} (fd : Z) : steady fd (@out_of_fuel A).
Proof.
  intro w. exists []. simpl. rewrite app_nil_r.
  repeat split. constructor.
Qed.

Lemma steady_bind {A B : Type} (fd : Z) (m : M A) (k : A -> M B) :
  steady fd m -> (forall a, steady fd (k a)) -> steady fd (bind m k).
Proof.
  intros Hm Hk w. unfold bind.
  destruct (Hm w) as [e1 [T1 [E1 W1]]].
  destruct (m w) as [[a|s| |] w1]; simpl in T1, E1;
    try (exists e1; simpl; now repeat split).
  destruct (Hk a w1) as [e2 [T2 [E2 W2]]].
  exists (e1 ++ e2). repeat split.
  - rewrite T2, T1. now rewrite app_assoc.
  - congruence.
  - now apply writes_on_app.
Qed.

Lemma steady_emit (fd : Z) (e : event) :
  match e with EvWrite fd' _ _ => fd' = fd | _ => True end ->
  steady fd (emit e).
Proof.
  intros H w. exists [e]. simpl. repeat split.
  constructor; [exact H | constructor].
Qed.

Lemma steady_error {A : Type} (fd : Z) (msg : list byte) :
  steady fd (@error A msg).
Proof.
  intro w. exists [EvPerror msg]. simpl. repeat split.
  constructor; [exact I | constructor].
Qed.

Lemma steady_ask (fd : Z) : steady fd ask.
Proof.
  intro w. exists []. simpl. rewrite app_nil_r. repeat split. constructor.
Qed.

Lemma steady_clock (fd : Z) : steady fd clock.
Proof.
  intro w. exists []. simpl. rewrite app_nil_r. repeat split. constructor.
Qed.

Lemma steady_printf (fd : Z) (fmt : list byte) (args : list printf_arg) :
  steady fd (printf fmt args).
Proof. apply steady_emit. exact I. Qed.

Lemma steady_write (fd : Z) (buf : list byte) (count : Z) :
  steady fd (write fd buf count).
Proof.
  unfold write. destruct (Z.of_nat (length buf) <? count).
  - apply steady_undefined.
  - apply steady_bind; [apply steady_ask | intro e].
    apply steady_bind; [apply steady_clock | intro t].
    apply steady_bind; [now apply steady_emit | intros _].
    apply steady_ret.
Qed.

Lemma steady_bzero (fd : Z) (buf : list byte) (n : Z) : steady fd (bzero buf n).
Proof.
  unfold bzero. destruct (Z.of_nat (length buf) <? n).
  - apply steady_undefined.
  - apply steady_ret.
Qed.

Lemma steady_strcpy (fd : Z) (dest src : list byte) :
  steady fd (strcpy dest src).
Proof.
  unfold strcpy. destruct (length dest <=? length (until_nul src))%nat.
  - apply steady_undefined.
  - apply steady_ret.
Qed.

Lemma steady_string_arg (fd : Z) (s : list byte) : steady fd (string_arg s).
Proof.
  unfold string_arg. destruct (terminated s).
  - apply steady_ret.
  - apply steady_undefined.
Qed.

Lemma steady_sendMsg (fd : Z) (buffer msg : list byte) :
  steady fd (sendMsg fd buffer msg).
Proof.
  unfold sendMsg.
  apply steady_bind; [apply steady_bzero | intro b1].
  apply steady_bind; [apply steady_strcpy | intro b2].
  apply steady_bind; [apply steady_write | intro r].
  destruct (r <? 0); [apply steady_error | apply steady_ret].
Qed.

Lemma steady_sendDir_loop (fd : Z) (entries : list (list byte)) :
  forall buffer, steady fd (sendDir_loop fd buffer entries).
Proof.
  induction entries as [|d entries IH]; intro buffer; simpl.
  - apply steady_ret.
  - apply steady_bind; [apply steady_sendMsg | exact IH].
Qed.

Lemma steady_sendDir (fd portNum : Z) : steady fd (sendDir fd portNum).
Proof.
  unfold sendDir.
  apply steady_bind; [apply steady_ask | intro e].
  destruct (env_dir e) as [entries|].
  - apply steady_bind; [apply steady_printf | intros _].
    apply steady_bind; [apply steady_sendDir_loop | intro b].
    apply steady_bind; [apply steady_sendMsg | intros _].
    apply steady_ret.
  - apply steady_ret.
Qed.

Lemma steady_sendFile_loop (fd : Z) (fuel : nat) :
  forall file buffer, steady fd (sendFile_loop fuel file buffer fd).
Proof.
  induction fuel as [|fuel IH]; intros file buffer; simpl.
  - apply steady_out_of_fuel.
  - destruct (negb (feof file)); [|apply steady_ret].
    destruct (fread buffer 500 file) as [[n b] f].
    apply steady_bind; [apply steady_write | intro r].
    destruct (r <? 0); [apply steady_error | apply IH].
Qed.

Lemma steady_fopen (fd : Z) (fileName : list byte) :
  steady fd (fopen fileName).
Proof.
  unfold fopen.
  apply steady_bind; [apply steady_ask | intro e].
  destruct (env_fopen e (until_nul fileName)) as [[content faults]|];
    apply steady_ret.
Qed.

Lemma steady_sendFile (fd portNum : Z) (fuel : nat) (fileName : list byte) :
  steady fd (sendFile fuel fileName fd portNum).
Proof.
  unfold sendFile.
  apply steady_bind; [apply steady_fopen | intros [file|]].
  - apply steady_bind; [apply steady_string_arg | intro name].
    apply steady_bind; [apply steady_printf | intros _].
    apply steady_sendFile_loop.
  - apply steady_error.
Qed.

(** ** The dispatcher, branch by branch *)

Lemma tags_no_nul :
  ~ In NUL TAG_DIR /\ ~ In NUL TAG_FIL /\ ~ In NUL TAG_NOF /\
  ~ In NUL TAG_UNK /\ ~ In NUL DONE.
Proof. unfold NUL. simpl. intuition discriminate. Qed.

Lemma responds_printf {A : Type} (fd : Z) (fmt : list byte)
    (args : list printf_arg) (m : M A) (w : World)
    (P : list (list byte) -> Prop) :
  responds fd m (log (EvPrintf fmt args) w) P ->
  responds fd (printf fmt args ;; m) w P.
Proof.
  intros [evs [T [E [W HP]]]].
  exists (EvPrintf fmt args :: evs).
  change ((printf fmt args ;; m) w) with (m (log (EvPrintf fmt args) w)).
  repeat split.
  - rewrite T. simpl. now rewrite <- app_assoc.
  - exact E.
  - constructor; [exact I | exact W].
  - exact HP.
Qed.

Lemma sendMsg_events (fd : Z) (buffer msg : list byte) (w : World) :
  length buffer = buffer_len ->
  ~ In NUL msg -> (length msg < buffer_len)%nat ->
  exists r w',
    sendMsg fd buffer msg w =
      (if r <? 0 then Exit 1 else Ret (frame msg), w') /\
    r = env_write (env w) (now w) BUFFER_SIZE /\
    env w' = env w /\ inbox w' = inbox w /\
    trace w' = trace w ++ EvWrite fd (frame msg) r ::
      (if r <? 0 then [EvPerror (lit "ERROR writing message to socket.")]
       else []).
Proof.
  intros Hb Hn Hl.
  rewrite sendMsg_run by (rewrite ?until_nul_id; assumption).
  unfold sendMsg_result. rewrite until_nul_id by assumption.
  exists (env_write (env w) (now w) BUFFER_SIZE).
  destruct (env_write (env w) (now w) BUFFER_SIZE <? 0);
    eexists; repeat split; simpl; now rewrite <- ?app_assoc.
Qed.

Lemma responds_tag_only (fd : Z) (buffer msg : list byte) (w : World) :
  length buffer = buffer_len ->
  ~ In NUL msg -> (length msg < buffer_len)%nat ->
  responds fd (sendMsg fd buffer msg) w (fun ws => ws = [frame msg]).
Proof.
  intros Hb Hn Hl.
  destruct (sendMsg_events fd buffer msg w Hb Hn Hl)
    as [r [w' [E [_ [Ee [_ T]]]]]].
  eexists. rewrite E. simpl. repeat split; [exact T | exact Ee | |].
  - constructor; [reflexivity|]. destruct (r <? 0); repeat constructor.
  - simpl. destruct (r <? 0); reflexivity.
Qed.

Lemma responds_tag {A : Type} (fd : Z) (buffer msg : list byte)
    (k : list byte -> M A) (w : World) :
  length buffer = buffer_len ->
  ~ In NUL msg -> (length msg < buffer_len)%nat ->
  (forall b, steady fd (k b)) ->
  responds fd (b <- sendMsg fd buffer msg ;; k b) w
    (fun ws => exists rest, ws = frame msg :: rest).
Proof.
  intros Hb Hn Hl Hk.
  destruct (sendMsg_events fd buffer msg w Hb Hn Hl)
    as [r [w' [E [_ [Ee [_ T]]]]]].
  unfold responds, bind. rewrite E.
  destruct (r <? 0).
  - eexists. simpl. repeat split; [exact T | exact Ee | | ].
    + repeat constructor.
    + simpl. now exists [].
  - destruct (Hk (frame msg) w') as [evs [T2 [E2 W2]]].
    exists (EvWrite fd (frame msg) r :: evs). repeat split.
    + rewrite T2, T. now rewrite <- app_assoc.
    + congruence.
    + constructor; [reflexivity | exact W2].
    + simpl. now exists (written evs).
Qed.

Lemma inDir_run (fileName : list byte) (w : World) :
  inDir fileName w = (Ret (dir_lookup (env w) fileName), w).
Proof.
  unfold inDir, dir_lookup, bind, ask.
  destruct (env_dir (env w)); reflexivity.
Qed.

Lemma inDir_loop_found (fileName : list byte) (entries : list (list byte)) :
  forall found,
    inDir_loop fileName entries found =
    if existsb (fun d => strcmp fileName d =? 0) entries then 1 else found.
Proof.
  induction entries as [|d entries IH]; intro found; simpl; [reflexivity|].
  rewrite IH. destruct (strcmp fileName d =? 0); simpl; [|reflexivity].
  now destruct (existsb _ entries).
Qed.

(** [inDir] answers 1 for the names of the directory and 0 for all
    others. *)
Lemma dir_lookup_spec (e : Env) (fileName : list byte) :
  (In (until_nul fileName) (dir_names e) -> dir_lookup e fileName = 1) /\
  (~ In (until_nul fileName) (dir_names e) -> dir_lookup e fileName = 0).
Proof.
  unfold dir_lookup, dir_names.
  destruct (env_dir e) as [entries|]; [|simpl; tauto].
  rewrite inDir_loop_found.
  destruct (existsb (fun d => strcmp fileName d =? 0) entries) eqn:E.
  - split; [reflexivity|]. intro H. exfalso. apply H.
    apply existsb_exists in E. destruct E as [d [Hin Hd]].
    apply Z.eqb_eq, strcmp_zero in Hd. rewrite Hd. now apply in_map.
  - split; [|reflexivity]. intro H. exfalso.
    apply in_map_iff in H. destruct H as [d [Hd Hin]].
    assert (X : existsb (fun d => strcmp fileName d =? 0) entries = true).
    { apply existsb_exists. exists d. split; [assumption|].
      apply Z.eqb_eq, strcmp_zero. now symmetry. }
    congruence.
Qed.

Lemma responds_ret_bind {A B : Type} (fd : Z) (x : A) (k : A -> M B)
    (w : World) (P : list (list byte) -> Prop) :
  responds fd (k x) w P -> responds fd (a <- ret x ;; k a) w P.
Proof. intro H. exact H. Qed.

Lemma responds_inDir {B : Type} (fd : Z) (fileName : list byte)
    (k : Z -> M B) (w : World) (P : list (list byte) -> Prop) :
  responds fd (k (dir_lookup (env w) fileName)) w P ->
  responds fd (found <- inDir fileName ;; k found) w P.
Proof. unfold responds, bind. now rewrite inDir_run. Qed.

Lemma responds_strcpy {B : Type} (fd : Z) (src : list byte)
    (k : list byte -> M B) (w : World) (P : list (list byte) -> Prop) :
  (length (until_nul src) < buffer_len)%nat ->
  responds fd (k (frame (until_nul src))) w P ->
  responds fd (dest <- strcpy (malloc BUFFER_SIZE) src ;; k dest) w P.
Proof.
  intro H. unfold responds, bind, malloc.
  change (Z.to_nat BUFFER_SIZE) with buffer_len.
  now rewrite strcpy_zeros.
Qed.

Lemma malloc_buffer_length : length (malloc BUFFER_SIZE) = buffer_len.
Proof. unfold malloc. now rewrite repeat_length. Qed.

Lemma handleRequest_cases (fuel : nat) (buffer : list byte)
    (fd portNum : Z) (w : World) :
  length buffer = buffer_len ->
  (firstn 2 buffer = lit "-l" /\
   responds fd (handleRequest fuel buffer fd portNum) w
     (fun ws => exists rest, ws = frame TAG_DIR :: rest))
  \/
  (firstn 2 buffer <> lit "-l" /\ firstn 5 buffer = lit "%none" /\
   responds fd (handleRequest fuel buffer fd portNum) w
     (fun ws => ws = [frame TAG_UNK]))
  \/
  (firstn 2 buffer <> lit "-l" /\ firstn 5 buffer <> lit "%none" /\
   terminated buffer = false /\
   handleRequest fuel buffer fd portNum w = (Undefined, w))
  \/
  (firstn 2 buffer <> lit "-l" /\ firstn 5 buffer <> lit "%none" /\
   terminated buffer = true /\
   dir_lookup (env w) buffer <> 0 /\
   responds fd (handleRequest fuel buffer fd portNum) w
     (fun ws => exists rest, ws = frame TAG_FIL :: rest))
  \/
  (firstn 2 buffer <> lit "-l" /\ firstn 5 buffer <> lit "%none" /\
   terminated buffer = true /\
   dir_lookup (env w) buffer = 0 /\
   responds fd (handleRequest fuel buffer fd portNum) w
     (fun ws => ws = [frame TAG_NOF])).
Proof.
  intro Hb.
  destruct tags_no_nul as [Nd [Nf [Nn [Nu _]]]].
  unfold handleRequest.
  destruct (strncmp buffer (lit "-l") 2 =? 0) eqn:EL.
  { left. apply is_listing_iff in EL. split; [exact EL|].
    apply responds_printf. apply responds_tag; trivial.
    - rewrite buffer_len_eq. simpl. lia.
    - intro b. apply steady_bind; [apply steady_sendDir | intros _].
      apply steady_ret. }
  assert (NL : firstn 2 buffer <> lit "-l").
  { intro H. apply is_listing_iff in H. congruence. }
  right.
  destruct (strncmp buffer (lit "%none") 5 =? 0) eqn:EN; cbn [negb].
  { left. apply is_sentinel_iff in EN. repeat split; trivial.
    apply responds_tag_only; trivial. rewrite buffer_len_eq. simpl. lia. }
  assert (NN : firstn 5 buffer <> lit "%none").
  { intro H. apply is_sentinel_iff in H. congruence. }
  right.
  unfold string_arg.
  destruct (terminated buffer) eqn:ET.
  2:{ left. repeat split; trivial. }
  right.
  assert (SL : (length (until_nul buffer) < buffer_len)%nat).
  { rewrite <- Hb. now apply until_nul_terminated_length. }
  destruct (dir_lookup (env w) buffer =? 0) eqn:EF.
  - right. apply Z.eqb_eq in EF. repeat split; trivial.
    apply responds_ret_bind, responds_printf, responds_inDir.
    cbn [env log]. rewrite EF. cbn [Z.eqb negb].
    apply responds_printf, responds_tag_only; trivial.
    rewrite buffer_len_eq. simpl. lia.
  - left. apply Z.eqb_neq in EF. repeat split; trivial.
    apply responds_ret_bind, responds_printf, responds_inDir.
    cbn [env log].
    replace (dir_lookup (env w) buffer =? 0) with false
      by (symmetry; now apply Z.eqb_neq).
    cbn [negb].
    apply responds_strcpy; [exact SL|].
    apply responds_tag; trivial.
    + rewrite buffer_len_eq. simpl. lia.
    + intro b. apply steady_bind; [apply steady_sendFile | intros _].
      apply steady_ret.
Qed.

(** ** The listing *)

Lemma entry_line_no_nul (d : list byte) : ~ In NUL (entry_line d).
Proof.
  unfold entry_line, strcat. intro H. apply in_app_or in H.
  destruct H as [H|H].
  - now apply until_nul_no_nul in H.
  - simpl in H. unfold NUL, LF in H. intuition discriminate.
Qed.

Lemma entry_line_length (d : list byte) :
  length (entry_line d) = S (length (until_nul d)).
Proof.
  unfold entry_line, strcat. rewrite length_app. simpl. lia.
Qed.

Lemma no_write_error_ltb (e : Env) (t : nat) :
  no_write_error e -> (env_write e t BUFFER_SIZE <? 0) = false.
Proof. intro H. apply Z.ltb_ge. apply H. discriminate. Qed.

Lemma sendDir_loop_run (fd : Z) (entries : list (list byte)) :
  forall (buffer : list byte) (w : World),
    length buffer = buffer_len ->
    Forall (fun d => (S (length (until_nul d)) < buffer_len)%nat) entries ->
    no_write_error (env w) ->
    exists b' w' evs,
      sendDir_loop fd buffer entries w = (Ret b', w') /\
      length b' = buffer_len /\
      env w' = env w /\ inbox w' = inbox w /\
      trace w' = trace w ++ evs /\
      written evs = map (fun d => frame (entry_line d)) entries /\
      writes_on fd evs.
Proof.
  induction entries as [|d entries IH]; intros buffer w Hb Hs Hw.
  - exists buffer, w, []. simpl. rewrite app_nil_r.
    repeat split; trivial. constructor.
  - inversion Hs as [|? ? Hd Hs']; subst.
    cbn [sendDir_loop]. unfold bind at 1.
    destruct (sendMsg_events fd buffer (entry_line d) w Hb)
      as [r [w1 [E [Hr [E1 [I1 T1]]]]]].
    { apply entry_line_no_nul. }
    { now rewrite entry_line_length. }
    fold (entry_line d). rewrite E.
    assert (R : (r <? 0) = false) by (subst r; now apply no_write_error_ltb).
    rewrite R in *.
    destruct (IH (frame (entry_line d)) w1) as [b' [w' [evs [E2 [L2 [Ee [Ei [T2 [W2 O2]]]]]]]]].
    { apply frame_length. rewrite entry_line_length. lia. }
    { exact Hs'. }
    { now rewrite E1. }
    exists b', w', (EvWrite fd (frame (entry_line d)) r :: evs).
    repeat split; trivial; try congruence.
    + rewrite T2, T1. now rewrite <- app_assoc.
    + simpl. now rewrite W2.
    + constructor; [reflexivity | exact O2].
Qed.

(** ** The chunk loop *)

Lemma fread_ok (buffer : list byte) (file : FILE) :
  f_faults file (f_calls file) = false ->
  fread buffer 500 file =
  (Z.of_nat (length (firstn 500 (f_rest file))),
   firstn 500 (f_rest file)
     ++ skipn (length (firstn 500 (f_rest file))) buffer,
   {| f_rest := skipn 500 (f_rest file);
      f_eof := f_eof file
               || (length (firstn 500 (f_rest file)) <? 500)%nat;
      f_err := f_err file;
      f_calls := S (f_calls file);
      f_faults := f_faults file |}).
Proof. intro H. unfold fread. now rewrite H. Qed.

Lemma write_chunk (fd : Z) (got rest : list byte) (w : World) :
  write fd (got ++ rest) (Z.of_nat (length got)) w =
  (Ret (env_write (env w) (now w) (Z.of_nat (length got))),
   log (EvWrite fd got (env_write (env w) (now w) (Z.of_nat (length got))))
     w).
Proof.
  rewrite write_run by (rewrite length_app; lia).
  rewrite Nat2Z.id, firstn_app, Nat.sub_diag, firstn_all. simpl.
  now rewrite app_nil_r.
Qed.

Lemma sendFile_loop_run (fd : Z) (fuel : nat) :
  forall (file : FILE) (buffer : list byte) (w : World),
    f_eof file = false ->
    (forall k, f_faults file k = false) ->
    full_writes (env w) ->
    (length (f_rest file) < 500 * (fuel - 1))%nat ->
    exists w' chunks,
      sendFile_loop fuel file buffer fd w = (Ret tt, w') /\
      env w' = env w /\ inbox w' = inbox w /\
      trace w' =
        trace w ++ map (fun c => EvWrite fd c (Z.of_nat (length c))) chunks /\
      concat chunks = f_rest file /\
      Forall (fun c => (length c <= 500)%nat) chunks /\
      (500 * (length chunks - 1) <= length (f_rest file))%nat.
Proof.
  induction fuel as [|fuel IH]; intros file buffer w He Hf Hw Hl; [lia|].
  cbn [sendFile_loop]. unfold feof. rewrite He. cbn [negb].
  rewrite fread_ok by apply Hf.
  unfold bind at 1. rewrite write_chunk. rewrite Hw by lia.
  set (got := firstn 500 (f_rest file)).
  replace (Z.of_nat (length got) <? 0) with false
    by (symmetry; apply Z.ltb_ge; lia).
  assert (Lg : length got = Nat.min 500 (length (f_rest file)))
    by apply length_firstn.
  assert (Rs : length (skipn 500 (f_rest file)) = (length (f_rest file) - 500)%nat)
    by apply length_skipn.
  destruct (length got <? 500)%nat eqn:Es.
  - (* the last chunk: the stream is at its end *)
    apply Nat.ltb_lt in Es.
    destruct fuel as [|fuel]; [lia|].
    cbn [sendFile_loop feof f_eof orb negb]. rewrite He. cbn [orb negb].
    eexists. exists [got]. repeat split; cbn [env inbox log trace map]; trivial.
    + simpl. rewrite app_nil_r. unfold got. apply firstn_all2. lia.
    + constructor; [lia | constructor].
    + simpl. lia.
  - apply Nat.ltb_ge in Es.
    set (w1 := log (EvWrite fd got (Z.of_nat (length got))) w).
    destruct (IH {| f_rest := skipn 500 (f_rest file);
                    f_eof := f_eof file || false;
                    f_err := f_err file;
                    f_calls := S (f_calls file);
                    f_faults := f_faults file |}
                 (got ++ skipn (length got) buffer) w1)
      as [w' [chunks [E [Ee [Ei [T [C [F N]]]]]]]].
    + cbn [f_eof]. now rewrite He.
    + exact Hf.
    + exact Hw.
    + cbn [f_rest]. lia.
    + exists w', (got :: chunks).
      cbn [f_rest] in *.
      repeat split; trivial.
      * rewrite T. unfold w1, log. cbn [trace map]. now rewrite <- app_assoc.
      * cbn [concat]. rewrite C. apply firstn_skipn.
      * constructor; [lia | exact F].
      * cbn [length]. lia.
Qed.

(** With reads that never fail the loop ends, whatever the transport
    answers: it returns, or a failed [write] ends the process. *)
Lemma sendFile_loop_halts (fd : Z) (fuel : nat) :
  forall (file : FILE) (buffer : list byte) (w : World),
    f_eof file = false ->
    (forall k, f_faults file k = false) ->
    (length (f_rest file) < 500 * (fuel - 1))%nat ->
    exists o w' evs,
      sendFile_loop fuel file buffer fd w = (o, w') /\
      (o = Ret tt \/ o = Exit 1) /\
      trace w' = trace w ++ evs /\
      (500 * (length (written evs) - 1) <= length (f_rest file))%nat.
Proof.
  induction fuel as [|fuel IH]; intros file buffer w He Hf Hl; [lia|].
  cbn [sendFile_loop]. unfold feof. rewrite He. cbn [negb].
  rewrite fread_ok by apply Hf.
  unfold bind at 1. rewrite write_chunk. cbv beta iota.
  set (got := firstn 500 (f_rest file)).
  set (r := env_write (env w) (now w) (Z.of_nat (length got))).
  assert (Lg : length got = Nat.min 500 (length (f_rest file)))
    by apply length_firstn.
  assert (Rs : length (skipn 500 (f_rest file)) = (length (f_rest file) - 500)%nat)
    by apply length_skipn.
  destruct (r <? 0).
  { do 3 eexists. unfold error, log. cbn [trace]. rewrite <- app_assoc.
    repeat split; [now right | simpl; lia]. }
  destruct (length got <? 500)%nat eqn:Es.
  - apply Nat.ltb_lt in Es.
    destruct fuel as [|fuel]; [lia|].
    cbn [sendFile_loop feof f_eof orb negb]. rewrite He. cbn [orb negb].
    do 3 eexists. unfold ret, log. cbn [trace].
    repeat split; [now left | simpl; lia].
  - apply Nat.ltb_ge in Es.
    set (w1 := log (EvWrite fd got r) w).
    destruct (IH {| f_rest := skipn 500 (f_rest file);
                    f_eof := f_eof file || false;
                    f_err := f_err file;
                    f_calls := S (f_calls file);
                    f_faults := f_faults file |}
                 (got ++ skipn (length got) buffer) w1)
      as [o [w' [evs [E [O [T N]]]]]].
    + cbn [f_eof]. now rewrite He.
    + exact Hf.
    + cbn [f_rest]. lia.
    + exists o, w', (EvWrite fd got r :: evs). cbn [f_rest] in *.
      repeat split; trivial.
      * rewrite T. unfold w1, log. cbn [trace]. now rewrite <- app_assoc.
      * cbn [written length]. lia.
Qed.

(** ** The control connection *)

Lemma recMsg_run (buffer data : list byte) (rest : list (option (list byte)))
    (fd : Z) (w : World) :
  length buffer = buffer_len ->
  inbox w = Some data :: rest ->
  recMsg buffer fd w =
  (Ret (frame (firstn buffer_len data)),
   {| env := env w; inbox := rest;
      trace := trace w ++
        [EvRead fd BUFFER_SIZE
           (Z.of_nat (length (firstn buffer_len data)))] |}).
Proof.
  intros Hb Hi. unfold recMsg.
  unfold bind at 1. rewrite bzero_run by assumption.
  unfold bind at 1. unfold read. rewrite repeat_length.
  change (Z.of_nat buffer_len <? BUFFER_SIZE) with false. cbv beta iota.
  rewrite Hi. change (Z.to_nat BUFFER_SIZE) with buffer_len.
  replace (Z.of_nat (length (firstn buffer_len data)) <? 0) with false
    by (symmetry; apply Z.ltb_ge; lia).
  unfold ret, frame. now rewrite skipn_repeat_nul.
Qed.

(** ** A file request that goes through *)

Lemma conn_events_chunks (fd : Z) (chunks : list (list byte)) :
  conn_events fd (map (fun c => EvWrite fd c (Z.of_nat (length c))) chunks) =
  map (fun c => EvWrite fd c (Z.of_nat (length c))) chunks.
Proof.
  induction chunks as [|c chunks IH]; [reflexivity|].
  unfold conn_events in *. cbn [map filter on_conn].
  rewrite Z.eqb_refl. now rewrite IH.
Qed.

Lemma not_listing (buffer : list byte) :
  firstn 2 buffer <> lit "-l" -> (strncmp buffer (lit "-l") 2 =? 0) = false.
Proof.
  intro H. destruct (strncmp buffer (lit "-l") 2 =? 0) eqn:E; [|reflexivity].
  apply is_listing_iff in E. contradiction.
Qed.

Lemma not_sentinel (buffer : list byte) :
  firstn 5 buffer <> lit "%none" ->
  (strncmp buffer (lit "%none") 5 =? 0) = false.
Proof.
  intro H. destruct (strncmp buffer (lit "%none") 5 =? 0) eqn:E; [|reflexivity].
  apply is_sentinel_iff in E. contradiction.
Qed.

Lemma full_writes_no_error (e : Env) : full_writes e -> no_write_error e.
Proof. intros H t count Hc. now rewrite H. Qed.

(** A request for a file of the directory, up to the chunk loop: the tag
    is sent, the file is opened. *)
Lemma handleRequest_file_step (fuel : nat) (buffer : list byte)
    (fd portNum : Z) (w : World) (content : list byte) (faults : nat -> bool) :
  length buffer = buffer_len ->
  terminated buffer = true ->
  firstn 2 buffer <> lit "-l" ->
  firstn 5 buffer <> lit "%none" ->
  In (until_nul buffer) (dir_names (env w)) ->
  env_fopen (env w) (until_nul buffer) = Some (content, faults) ->
  no_write_error (env w) ->
  exists w3 r,
    handleRequest fuel buffer fd portNum w =
      (sendFile_loop fuel (fresh_file content faults) (malloc BUFFER_SIZE) fd ;;
       ret (frame TAG_FIL)) w3 /\
    env w3 = env w /\
    r = env_write (env w) (S (now w)) BUFFER_SIZE /\
    trace w3 = trace w ++
      [EvPrintf (lit "File " ++ [DQUOTE] ++ lit "%s" ++ [DQUOTE]
                   ++ lit " requested on port %i." ++ [LF])
         [ArgStr (until_nul buffer); ArgInt portNum];
       EvWrite fd (frame TAG_FIL) r;
       EvPrintf (lit "Sending " ++ [DQUOTE] ++ lit "%s" ++ [DQUOTE]
                   ++ lit " requested on port %i." ++ [LF])
         [ArgStr (until_nul buffer); ArgInt portNum]].
Proof.
  intros Hb ET NL NN Hin Hfo Hw.
  assert (SL : (length (until_nul buffer) < buffer_len)%nat).
  { rewrite <- Hb. now apply until_nul_terminated_length. }
  destruct tags_no_nul as [_ [Nf _]].
  unfold handleRequest.
  rewrite not_listing, not_sentinel by assumption. cbn [negb].
  unfold string_arg. rewrite ET.
  step_ret.
  step_printf.
  unfold bind at 1. rewrite inDir_run. cbv beta iota.
  cbn [env log].
  rewrite (proj1 (dir_lookup_spec (env w) buffer) Hin).
  change (negb (1 =? 0)) with true. cbv iota.
  unfold bind at 1. unfold malloc at 1.
  change (Z.to_nat BUFFER_SIZE) with buffer_len.
  rewrite strcpy_zeros by exact SL. cbv beta iota.
  unfold bind at 1.
  match goal with |- context [sendMsg fd buffer ?m ?w0] =>
    destruct (sendMsg_events fd buffer m w0 Hb Nf)
      as [r [w1 [E [Hr [E1 [I1 T1]]]]]];
      [rewrite buffer_len_eq; simpl; lia|]
  end.
  fold TAG_FIL. fold TAG_FIL in E. rewrite E.
  cbn [env log] in Hr, E1.
  assert (R : (r <? 0) = false) by (subst r; now apply no_write_error_ltb).
  rewrite R in *. cbv beta iota.
  unfold bind at 1. unfold sendFile.
  unfold bind at 1. unfold fopen. unfold bind at 1. unfold ask at 1.
  cbv beta iota.
  rewrite frame_until_nul by (try apply until_nul_no_nul; exact SL).
  rewrite E1, Hfo. unfold ret at 1. cbv beta iota.
  unfold string_arg. rewrite frame_terminated by exact SL.
  step_ret.
  step_printf.
  rewrite frame_until_nul by (try apply until_nul_no_nul; exact SL).
  eexists. exists r. split; [reflexivity|].
  cbn [env log trace]. split; [exact E1|]. split.
  - rewrite Hr. f_equal. unfold now, log. cbn [trace].
    rewrite length_app. simpl. lia.
  - rewrite T1. cbn [log trace]. now rewrite <- !app_assoc.
Qed.

Lemma handleRequest_file_run (fuel : nat) (buffer : list byte)
    (fd portNum : Z) (w : World) (content : list byte) (faults : nat -> bool) :
  length buffer = buffer_len ->
  terminated buffer = true ->
  firstn 2 buffer <> lit "-l" ->
  firstn 5 buffer <> lit "%none" ->
  In (until_nul buffer) (dir_names (env w)) ->
  env_fopen (env w) (until_nul buffer) = Some (content, faults) ->
  (forall k, faults k = false) ->
  full_writes (env w) ->
  (length content < 500 * (fuel - 1))%nat ->
  exists w' evs chunks,
    handleRequest fuel buffer fd portNum w = (Ret (frame TAG_FIL), w') /\
    env w' = env w /\
    trace w' = trace w ++ evs /\
    conn_events fd evs =
      EvWrite fd (frame TAG_FIL) BUFFER_SIZE ::
      map (fun c => EvWrite fd c (Z.of_nat (length c))) chunks /\
    concat chunks = content /\
    Forall (fun c => (length c <= 500)%nat) chunks /\
    (500 * (length chunks - 1) <= length content)%nat.
Proof.
  intros Hb ET NL NN Hin Hfo Hf Hw Hl.
  destruct (handleRequest_file_step fuel buffer fd portNum w content faults
              Hb ET NL NN Hin Hfo (full_writes_no_error _ Hw))
    as [w3 [r [E [E3 [Hr T3]]]]].
  rewrite Hw in Hr by discriminate. subst r.
  rewrite E. unfold bind at 1.
  destruct (sendFile_loop_run fd fuel (fresh_file content faults)
              (malloc BUFFER_SIZE) w3)
    as [w2 [chunks [E2 [Ee2 [Ei2 [T2 [C2 [F2 N2]]]]]]]]; trivial.
  { now rewrite E3. }
  rewrite E2. cbv beta iota. unfold ret.
  cbn [fresh_file f_rest] in *.
  eexists. eexists. exists chunks.
  repeat split; [ | rewrite T2, T3; rewrite <- !app_assoc; reflexivity | | | | ];
    trivial.
  - congruence.
  - cbn [app]. unfold conn_events at 1. cbn [filter on_conn].
    rewrite Z.eqb_refl. f_equal. apply conn_events_chunks.
Qed.

(** ** A listing request *)

Lemma handleRequest_listing_run (fuel : nat) (buffer : list byte)
    (fd portNum : Z) (w : World) (entries : list (list byte)) :
  length buffer = buffer_len ->
  firstn 2 buffer = lit "-l" ->
  env_dir (env w) = Some entries ->
  Forall (fun d => (S (length (until_nul d)) < buffer_len)%nat) entries ->
  no_write_error (env w) ->
  exists w' evs,
    handleRequest fuel buffer fd portNum w = (Ret (frame TAG_DIR), w') /\
    env w' = env w /\
    trace w' = trace w ++ evs /\
    writes_on fd evs /\
    written evs =
      frame TAG_DIR :: map (fun d => frame (entry_line d)) entries
        ++ [frame DONE].
Proof.
  intros Hb HL Hd Hs Hw.
  destruct tags_no_nul as [Nd [_ [_ [_ Ndone]]]].
  unfold handleRequest.
  rewrite (proj2 (is_listing_iff buffer) HL).
  step_printf.
  unfold bind at 1.
  match goal with |- context [sendMsg fd buffer ?m ?w0] =>
    destruct (sendMsg_events fd buffer m w0 Hb Nd)
      as [r [w1 [E [Hr [E1 [I1 T1]]]]]];
      [rewrite buffer_len_eq; simpl; lia|]
  end.
  fold TAG_DIR. fold TAG_DIR in E. rewrite E.
  assert (R : (r <? 0) = false) by (subst r; now apply no_write_error_ltb).
  rewrite R in *. cbv beta iota.
  unfold bind at 1. unfold sendDir.
  step_ask.
  cbn [env log] in E1. rewrite E1, Hd.
  step_printf.
  unfold bind at 1.
  match goal with |- context [sendDir_loop fd ?b entries ?w0] =>
    destruct (sendDir_loop_run fd entries b w0)
      as [b2 [w2 [evs2 [E2 [L2 [Ee2 [Ei2 [T2 [W2 O2]]]]]]]]]
  end.
  { apply malloc_buffer_length. }
  { exact Hs. }
  { cbn [env log]. now rewrite E1. }
  rewrite E2. cbv beta iota.
  unfold bind at 1.
  destruct (sendMsg_events fd b2 DONE w2 L2 Ndone)
    as [r3 [w3 [E3 [Hr3 [Ee3 [Ei3 T3]]]]]];
    [rewrite buffer_len_eq; simpl; lia|].
  fold DONE. rewrite E3.
  assert (R3 : (r3 <? 0) = false).
  { subst r3. apply no_write_error_ltb. rewrite Ee2. cbn [env log].
    now rewrite E1. }
  rewrite R3 in *. cbv beta iota. unfold ret.
  cbn [env log trace] in *.
  eexists. eexists.
  repeat split;
    [ congruence
    | rewrite T3, T2, T1; rewrite <- !app_assoc; reflexivity | | ].
  - constructor; [exact I|]. constructor; [reflexivity|].
    constructor; [exact I|]. apply writes_on_app; [exact O2|].
    constructor; [reflexivity | constructor].
  - cbn [app written]. rewrite written_app, W2. reflexivity.
Qed.

(** The listing when the directory cannot be opened: the tag alone. *)
Lemma handleRequest_listing_no_dir (fuel : nat) (buffer : list byte)
    (fd portNum : Z) (w : World) :
  length buffer = buffer_len ->
  firstn 2 buffer = lit "-l" ->
  env_dir (env w) = None ->
  no_write_error (env w) ->
  exists w' r,
    handleRequest fuel buffer fd portNum w = (Ret (frame TAG_DIR), w') /\
    env w' = env w /\
    trace w' = trace w ++
      [EvPrintf (lit "List directory requested on port %i." ++ [LF])
         [ArgInt portNum];
       EvWrite fd (frame TAG_DIR) r].
Proof.
  intros Hb HL Hd Hw.
  destruct tags_no_nul as [Nd _].
  unfold handleRequest.
  rewrite (proj2 (is_listing_iff buffer) HL).
  step_printf.
  unfold bind at 1.
  match goal with |- context [sendMsg fd buffer ?m ?w0] =>
    destruct (sendMsg_events fd buffer m w0 Hb Nd)
      as [r [w1 [E [Hr [E1 [I1 T1]]]]]];
      [rewrite buffer_len_eq; simpl; lia|]
  end.
  fold TAG_DIR. fold TAG_DIR in E. rewrite E.
  assert (R : (r <? 0) = false) by (subst r; now apply no_write_error_ltb).
  rewrite R in *. cbv beta iota.
  unfold bind at 1. unfold sendDir.
  step_ask.
  cbn [env log] in E1. rewrite E1, Hd. unfold ret.
  exists w1, r. cbn [log trace] in T1.
  repeat split; [exact E1 | rewrite T1; rewrite <- app_assoc; reflexivity].
Qed.

(** ** One turn of the loop of main, up to the dispatch *)

Lemma snoc_seven {A : Type} (l : list A) (a b c d e f g : A) :
  ((((((l ++ [a]) ++ [b]) ++ [c]) ++ [d]) ++ [e]) ++ [f]) ++ [g] =
  l ++ [a; b; c; d; e; f; g].
Proof. now rewrite <- !app_assoc. Qed.

Lemma main_loop_body_run (fuel : nat) (listenSockFD : Z)
    (buffer cmd port : list byte) (rest : list (option (list byte)))
    (w : World) :
  length buffer = buffer_len ->
  inbox w = Some cmd :: Some port :: rest ->
  (forall t, 0 <= env_accept (env w) t) ->
  (forall t, 0 <= env_socket (env w) t) ->
  (forall t, 0 <= env_connect (env w) t) ->
  exists w1 pre dataSockFD dataPort,
    main_loop_body fuel listenSockFD buffer w =
      (buffer <- handleRequest fuel (frame (firstn buffer_len cmd))
                   dataSockFD dataPort ;;
       printf (lit "Closing data connection." ++ [LF]) [] ;;
       printf [LF; LF] [] ;;
       close dataSockFD ;;
       ret buffer) w1 /\
    env w1 = env w /\
    trace w1 = trace w ++ pre /\
    written pre = [] /\
    (forall fd, conn_events fd pre = []) /\
    In (EvSocket dataSockFD) pre.
Proof.
  intros Hb Hi Ha Hs Hc.
  unfold main_loop_body.
  unfold bind at 1. unfold acceptClient.
  unfold bind at 1. unfold accept.
  step_ask.
  step_clock.
  step_emit.
  unfold ret at 1. cbv beta iota.
  replace (env_accept (env w) (now w) <? 0) with false
    by (symmetry; apply Z.ltb_ge; apply Ha).
  step_printf.
  unfold ret at 1. cbv beta iota.
  unfold bind at 1.
  erewrite recMsg_run by (try exact Hb; cbn [inbox log]; exact Hi).
  cbv beta iota.
  unfold bind at 1.
  erewrite recMsg_run by (try apply malloc_buffer_length; reflexivity).
  cbv beta iota.
  unfold bind at 1. unfold sleep at 1, emit at 1. cbv beta iota.
  unfold bind at 1. unfold createSocket.
  unfold bind at 1. unfold socket.
  step_ask.
  step_clock.
  step_emit.
  unfold ret at 1. cbv beta iota.
  cbn [env log].
  match goal with |- context [env_socket (env w) ?t <? 0] =>
    replace (env_socket (env w) t <? 0) with false
      by (symmetry; apply Z.ltb_ge; apply Hs)
  end.
  unfold ret at 1. cbv beta iota.
  unfold bind at 1. unfold connect.
  step_ask.
  step_clock.
  step_emit.
  unfold ret at 1. cbv beta iota.
  cbn [env log].
  match goal with |- context [env_connect (env w) ?t <? 0] =>
    replace (env_connect (env w) t <? 0) with false
      by (symmetry; apply Z.ltb_ge; apply Hc)
  end.
  step_ret.
  cbn [env inbox trace log].
  do 4 eexists. split; [reflexivity|].
  split; [reflexivity|].
  split; [unfold log; cbn [trace]; apply snoc_seven|].
  split; [reflexivity|].
  split; [intro fd0; reflexivity|].
  do 5 right. left. reflexivity.
Qed.

(** ** The command as it arrives *)

Lemma until_nul_app_zero (a b : list byte) :
  until_nul (a ++ NUL :: b) = until_nul a.
Proof.
  induction a as [|c a IH]; simpl; [reflexivity|].
  destruct (Byte.eqb c NUL); [reflexivity | now rewrite IH].
Qed.

(** A command shorter than the buffer is received as the same string,
    terminated. *)
Lemma received_command (cmd : list byte) :
  (length cmd < buffer_len)%nat ->
  length (frame (firstn buffer_len cmd)) = buffer_len /\
  terminated (frame (firstn buffer_len cmd)) = true /\
  until_nul (frame (firstn buffer_len cmd)) = until_nul cmd.
Proof.
  intro H. rewrite firstn_all2 by lia.
  split; [apply frame_length; lia|].
  split; [now apply frame_terminated|].
  unfold frame.
  replace (buffer_len - length cmd)%nat with (S (buffer_len - S (length cmd)))
    by lia.
  apply until_nul_app_zero.
Qed.

(** A prefix without NUL is a prefix of the array exactly when it is a
    prefix of its string. *)
Lemma firstn_until_nul (p s : list byte) :
  ~ In NUL p ->
  firstn (length p) (until_nul s) = p <-> firstn (length p) s = p.
Proof.
  revert s. induction p as [|c p IH]; intros s Hp; [simpl; tauto|].
  assert (Hc : c <> NUL) by (intro; subst; simpl in Hp; tauto).
  assert (Hp' : ~ In NUL p) by (simpl in Hp; tauto).
  destruct s as [|d s]; cbn [length firstn until_nul]; [tauto|].
  destruct (Byte.eqb d NUL) eqn:E.
  - apply byte_eqb_eq in E. subst d. cbn [firstn].
    split; intro H; [discriminate | congruence].
  - cbn [firstn]. specialize (IH s Hp').
    split; intro H; injection H as H1 H2; f_equal; tauto.
Qed.

Lemma received_prefix (p cmd : list byte) :
  ~ In NUL p -> (length cmd < buffer_len)%nat ->
  firstn (length p) (frame (firstn buffer_len cmd)) = p <->
  firstn (length p) (until_nul cmd) = p.
Proof.
  intros Hp Hl.
  rewrite <- (firstn_until_nul p (frame (firstn buffer_len cmd)) Hp).
  destruct (received_command cmd Hl) as [_ [_ E]]. now rewrite E.
Qed.

(** ** A request for a name that is not found *)

Lemma handleRequest_nof_run (fuel : nat) (buffer : list byte)
    (fd portNum : Z) (w : World) :
  length buffer = buffer_len ->
  terminated buffer = true ->
  firstn 2 buffer <> lit "-l" ->
  firstn 5 buffer <> lit "%none" ->
  dir_lookup (env w) buffer = 0 ->
  exists r w',
    handleRequest fuel buffer fd portNum w =
      (if r <? 0 then Exit 1 else Ret (frame TAG_NOF), w') /\
    env w' = env w /\
    (no_write_error (env w) -> (r <? 0) = false) /\
    trace w' = trace w ++
      [EvPrintf (lit "File " ++ [DQUOTE] ++ lit "%s" ++ [DQUOTE]
                   ++ lit " requested on port %i." ++ [LF])
         [ArgStr (until_nul buffer); ArgInt portNum];
       EvPrintf (lit "File not found. Sending error message to client: %i."
                   ++ [LF]) [ArgInt portNum];
       EvWrite fd (frame TAG_NOF) r] ++
      (if r <? 0 then [EvPerror (lit "ERROR writing message to socket.")]
       else []).
Proof.
  intros Hb ET NL NN Hz.
  destruct tags_no_nul as [_ [_ [Nn _]]].
  unfold handleRequest.
  rewrite not_listing, not_sentinel by assumption. cbn [negb].
  unfold string_arg. rewrite ET.
  step_ret.
  step_printf.
  unfold bind at 1. rewrite inDir_run. cbv beta iota.
  cbn [env log]. rewrite Hz.
  change (negb (0 =? 0)) with false. cbv iota.
  step_printf.
  match goal with |- context [sendMsg fd buffer ?m ?w0] =>
    destruct (sendMsg_events fd buffer m w0 Hb Nn)
      as [r [w1 [E [Hr [E1 [I1 T1]]]]]];
      [rewrite buffer_len_eq; simpl; lia|]
  end.
  fold TAG_NOF. fold TAG_NOF in E. rewrite E.
  exists r, w1. cbn [env log trace] in *.
  repeat split; trivial.
  - intro Hw. subst r. now apply no_write_error_ltb.
  - rewrite T1. rewrite <- !app_assoc. reflexivity.
Qed.

(** * The claims *)

Lemma frame_tags_differ (a b : list byte) :
  In a [TAG_DIR; TAG_FIL; TAG_NOF; TAG_UNK] ->
  In b [TAG_DIR; TAG_FIL; TAG_NOF; TAG_UNK] ->
  frame a = frame b -> a = b.
Proof.
  intros Ha Hb. destruct tags_no_nul as [Nd [Nf [Nn [Nu _]]]].
  simpl in Ha, Hb.
  destruct Ha as [<-|[<-|[<-|[<-|[]]]]];
    destruct Hb as [<-|[<-|[<-|[<-|[]]]]];
    intro H; try reflexivity;
    apply frame_inj in H; trivial; rewrite buffer_len_eq; simpl; lia.
Qed.

Lemma added_same (w : World) : added w w = [].
Proof. unfold added. apply skipn_all. Qed.

(** C2.  Whatever the command, the first buffer the dispatcher writes on
    the data connection is the frame of exactly one of the four tags, it
    writes to no other descriptor, and after the file-not-found and the
    unknown-command tag it writes nothing more. *)
Theorem handleRequest_one_tag (fuel : nat) (buffer : list byte)
    (fd portNum : Z) (w : World) :
  length buffer = buffer_len ->
  terminated buffer = true ->
  exists tag rest,
    In tag [TAG_DIR; TAG_FIL; TAG_NOF; TAG_UNK] /\
    written (added w (snd (handleRequest fuel buffer fd portNum w))) =
      frame tag :: rest /\
    writes_on fd (added w (snd (handleRequest fuel buffer fd portNum w))) /\
    (tag = TAG_NOF \/ tag = TAG_UNK -> rest = []).
Proof.
  intros Hb ET.
  destruct (handleRequest_cases fuel buffer fd portNum w Hb)
    as [[_ R] | [[_ [_ R]] | [[_ [_ [F _]]] | [[_ [_ [_ [_ R]]]]
       | [_ [_ [_ [_ R]]]]]]]];
    try congruence;
    destruct R as [evs [T [_ [W P]]]]; rewrite (added_app _ _ _ T).
  - destruct P as [rest P]. exists TAG_DIR, rest.
    repeat split; trivial; [simpl; tauto|].
    intros [H|H]; vm_compute in H; discriminate.
  - exists TAG_UNK, []. repeat split; trivial. simpl; tauto.
  - destruct P as [rest P]. exists TAG_FIL, rest.
    repeat split; trivial; [simpl; tauto|].
    intros [H|H]; vm_compute in H; discriminate.
  - exists TAG_NOF, []. repeat split; trivial. simpl; tauto.
Qed.

Lemma handleRequest_one_tag_witness :
  exists tag rest,
    In tag [TAG_DIR; TAG_FIL; TAG_NOF; TAG_UNK] /\
    written (added (serving_world sample_env)
               (snd (handleRequest 5 (frame (lit "notes.txt")) 5 51000
                       (serving_world sample_env)))) =
      frame tag :: rest /\
    writes_on 5 (added (serving_world sample_env)
               (snd (handleRequest 5 (frame (lit "notes.txt")) 5 51000
                       (serving_world sample_env)))) /\
    (tag = TAG_NOF \/ tag = TAG_UNK -> rest = []).
Proof.
  apply (handleRequest_one_tag 5 (frame (lit "notes.txt")) 5 51000
           (serving_world sample_env)).
  - reflexivity.
  - reflexivity.
Defined.

(** C3.  The code does not do what the claim says.  The command "-lx"
    begins with "-l" and is another token, and the dispatcher takes the
    listing path for it: it writes the listing-follows tag and then the
    listing of the directory.  The test of the dispatcher compares two
    characters and no more. *)
Theorem longer_token_takes_listing_path :
  until_nul (frame (lit "-lx")) <> lit "-l" /\
  strncmp (frame (lit "-lx")) (lit "-l") 2 = 0 /\
  takes_listing_path 5 (frame (lit "-lx")) 5 51000
    (serving_world sample_env) /\
  fst (handleRequest 5 (frame (lit "-lx")) 5 51000
         (serving_world sample_env)) = Ret (frame TAG_DIR) /\
  written (trace (snd (handleRequest 5 (frame (lit "-lx")) 5 51000
                        (serving_world sample_env)))) =
    [frame TAG_DIR;
     frame (lit "." ++ [LF]); frame (lit ".." ++ [LF]);
     frame (lit "notes.txt" ++ [LF]); frame (lit "-log.txt" ++ [LF]);
     frame DONE].
Proof.
  split; [vm_compute; discriminate|].
  split; [reflexivity|].
  split; [unfold takes_listing_path; eexists; vm_compute; reflexivity|].
  split; vm_compute; reflexivity.
Qed.

(** C4.  The code does not do what the claim says.  "-lx" and
    "%nonesuch" are neither the listing command "-l" nor the sentinel
    "%none", and neither names an entry of the directory; the first is
    answered with the listing-follows tag and the listing, the second with
    the unknown-command tag, and neither with the file-not-found tag. *)
Theorem absent_names_not_answered_nof :
  (until_nul (frame (lit "-lx")) <> lit "-l" /\
   until_nul (frame (lit "-lx")) <> lit "%none" /\
   ~ In (until_nul (frame (lit "-lx"))) (dir_names sample_env) /\
   written (trace (snd (handleRequest 5 (frame (lit "-lx")) 5 51000
                         (serving_world sample_env)))) =
     [frame TAG_DIR;
      frame (lit "." ++ [LF]); frame (lit ".." ++ [LF]);
      frame (lit "notes.txt" ++ [LF]); frame (lit "-log.txt" ++ [LF]);
      frame DONE]) /\
  (until_nul (frame (lit "%nonesuch")) <> lit "-l" /\
   until_nul (frame (lit "%nonesuch")) <> lit "%none" /\
   ~ In (until_nul (frame (lit "%nonesuch"))) (dir_names sample_env) /\
   written (trace (snd (handleRequest 5 (frame (lit "%nonesuch")) 5 51000
                         (serving_world sample_env)))) =
     [frame TAG_UNK]).
Proof.
  split.
  - split; [vm_compute; discriminate|].
    split; [vm_compute; discriminate|].
    split; [vm_compute; intuition discriminate|].
    vm_compute. reflexivity.
  - split; [vm_compute; discriminate|].
    split; [vm_compute; discriminate|].
    split; [vm_compute; intuition discriminate|].
    vm_compute. reflexivity.
Qed.

(** C10.  When the working directory cannot be opened, [inDir] answers 0
    for every name, and every command that reaches the membership test is
    answered with the file-not-found tag alone, whatever files exist; the
    dispatcher returns (the process goes on) unless the write of the tag
    fails. *)
Theorem lookup_without_directory (fuel : nat) (buffer : list byte)
    (fd portNum : Z) (w : World) :
  env_dir (env w) = None ->
  length buffer = buffer_len ->
  terminated buffer = true ->
  firstn 2 buffer <> lit "-l" ->
  firstn 5 buffer <> lit "%none" ->
  inDir buffer w = (Ret 0, w) /\
  written (added w (snd (handleRequest fuel buffer fd portNum w))) =
    [frame TAG_NOF] /\
  (no_write_error (env w) ->
   fst (handleRequest fuel buffer fd portNum w) = Ret (frame TAG_NOF)).
Proof.
  intros Hd Hb ET NL NN.
  assert (Z0 : dir_lookup (env w) buffer = 0).
  { unfold dir_lookup. now rewrite Hd. }
  split.
  { rewrite inDir_run. now rewrite Z0. }
  destruct (handleRequest_nof_run fuel buffer fd portNum w Hb ET NL NN Z0)
    as [r [w' [E [_ [R T]]]]].
  rewrite E. cbn [fst snd]. rewrite (added_app _ _ _ T).
  split.
  - destruct (r <? 0); reflexivity.
  - intro Hw. now rewrite (R Hw).
Qed.

Lemma lookup_without_directory_witness :
  inDir (frame (lit "notes.txt")) (serving_world no_dir_env) =
    (Ret 0, serving_world no_dir_env) /\
  written (added (serving_world no_dir_env)
             (snd (handleRequest 5 (frame (lit "notes.txt")) 5 51000
                     (serving_world no_dir_env)))) =
    [frame TAG_NOF] /\
  (no_write_error (env (serving_world no_dir_env)) ->
   fst (handleRequest 5 (frame (lit "notes.txt")) 5 51000
          (serving_world no_dir_env)) = Ret (frame TAG_NOF)).
Proof.
  apply (lookup_without_directory 5 (frame (lit "notes.txt")) 5 51000
           (serving_world no_dir_env)).
  - reflexivity.
  - reflexivity.
  - reflexivity.
  - vm_compute. discriminate.
  - vm_compute. discriminate.
Defined.

(** C5.  For a listing request, when the directory opens and no write
    fails, the buffers written on the data connection are the frame of the
    listing-follows tag, then for each entry of the directory, in the order
    [readdir] yields them, the frame of its name and a newline, then the
    frame of "~done" and a newline, once; the dispatcher returns. *)
Theorem listing_response (fuel : nat) (buffer : list byte)
    (fd portNum : Z) (w : World) (entries : list (list byte)) :
  length buffer = buffer_len ->
  firstn 2 buffer = lit "-l" ->
  env_dir (env w) = Some entries ->
  Forall (fun d => (S (length (until_nul d)) < buffer_len)%nat) entries ->
  no_write_error (env w) ->
  fst (handleRequest fuel buffer fd portNum w) = Ret (frame TAG_DIR) /\
  written (added w (snd (handleRequest fuel buffer fd portNum w))) =
    frame TAG_DIR
      :: map (fun name => frame (name ++ [LF])) (dir_names (env w))
      ++ [frame DONE] /\
  writes_on fd (added w (snd (handleRequest fuel buffer fd portNum w))).
Proof.
  intros Hb HL Hd Hs Hw.
  destruct (handleRequest_listing_run fuel buffer fd portNum w entries
              Hb HL Hd Hs Hw) as [w' [evs [E [_ [T [W O]]]]]].
  rewrite E. cbn [fst snd]. rewrite (added_app _ _ _ T).
  repeat split; trivial.
  rewrite O. unfold dir_names. rewrite Hd. rewrite map_map. reflexivity.
Qed.

Lemma listing_response_witness :
  fst (handleRequest 5 (frame (lit "-l")) 5 51000
         (serving_world sample_env)) = Ret (frame TAG_DIR) /\
  written (added (serving_world sample_env)
             (snd (handleRequest 5 (frame (lit "-l")) 5 51000
                     (serving_world sample_env)))) =
    frame TAG_DIR
      :: map (fun name => frame (name ++ [LF]))
           (dir_names (env (serving_world sample_env)))
      ++ [frame DONE] /\
  writes_on 5 (added (serving_world sample_env)
             (snd (handleRequest 5 (frame (lit "-l")) 5 51000
                     (serving_world sample_env)))).
Proof.
  apply (listing_response 5 (frame (lit "-l")) 5 51000
           (serving_world sample_env)
           [lit "."; lit ".."; lit "notes.txt"; lit "-log.txt"]).
  - reflexivity.
  - reflexivity.
  - reflexivity.
  - repeat constructor; vm_compute; lia.
  - intros t count H. exact H.
Defined.

Lemma received_listing (cmd : list byte) :
  firstn 2 cmd = lit "-l" ->
  firstn 2 (frame (firstn buffer_len cmd)) = lit "-l".
Proof.
  intro H. destruct cmd as [|a [|b c]]; try discriminate.
  rewrite buffer_len_eq. unfold frame. cbn [firstn app]. exact H.
Qed.

(** C9.  When the working directory cannot be opened, a listing request
    is answered with the listing-follows tag and nothing more: the only
    buffer written is the frame of the tag, no entry and no "~done"
    follows, the turn of the loop returns (the process does not exit), and
    the data connection sees the tag and then its close. *)
Theorem listing_without_directory (fuel : nat) (listenSockFD : Z)
    (buffer cmd port : list byte) (rest : list (option (list byte)))
    (w : World) :
  length buffer = buffer_len ->
  inbox w = Some cmd :: Some port :: rest ->
  firstn 2 cmd = lit "-l" ->
  env_dir (env w) = None ->
  no_write_error (env w) ->
  (forall t, 0 <= env_accept (env w) t) ->
  (forall t, 0 <= env_socket (env w) t) ->
  (forall t, 0 <= env_connect (env w) t) ->
  exists w' b dataSockFD r,
    main_loop_body fuel listenSockFD buffer w = (Ret b, w') /\
    In (EvSocket dataSockFD) (added w w') /\
    written (added w w') = [frame TAG_DIR] /\
    conn_events dataSockFD (added w w') =
      [EvWrite dataSockFD (frame TAG_DIR) r; EvClose dataSockFD].
Proof.
  intros Hb Hi HL Hd Hw Ha Hs Hc.
  destruct (main_loop_body_run fuel listenSockFD buffer cmd port rest w
              Hb Hi Ha Hs Hc)
    as [w1 [pre [dfd [dport [E [Ee [T [Wp [Cp Sp]]]]]]]]].
  rewrite E. unfold bind at 1.
  destruct (handleRequest_listing_no_dir fuel
              (frame (firstn buffer_len cmd)) dfd dport w1)
    as [w2 [r [E2 [Ee2 T2]]]].
  { apply frame_length. rewrite length_firstn. lia. }
  { now apply received_listing. }
  { now rewrite Ee. }
  { now rewrite Ee. }
  rewrite E2. cbv beta iota.
  unfold bind, printf, close, emit, ret, log. cbn [env inbox trace].
  do 2 eexists. exists dfd, r. split; [reflexivity|].
  erewrite added_app
    by (cbn [trace]; rewrite T2, T; rewrite <- !app_assoc; reflexivity).
  repeat split.
  - apply in_or_app. now left.
  - rewrite written_app, Wp. reflexivity.
  - rewrite conn_events_app, Cp. unfold conn_events.
    cbn [app filter on_conn]. rewrite Z.eqb_refl. reflexivity.
Qed.

Lemma listing_without_directory_witness :
  exists w' b dataSockFD r,
    main_loop_body 5 3 (malloc BUFFER_SIZE)
      (request_world no_dir_env (lit "-l")) = (Ret b, w') /\
    In (EvSocket dataSockFD) (added (request_world no_dir_env (lit "-l")) w') /\
    written (added (request_world no_dir_env (lit "-l")) w') =
      [frame TAG_DIR] /\
    conn_events dataSockFD (added (request_world no_dir_env (lit "-l")) w') =
      [EvWrite dataSockFD (frame TAG_DIR) r; EvClose dataSockFD].
Proof.
  apply (listing_without_directory 5 3 (malloc BUFFER_SIZE) (lit "-l")
           (lit "51000") [] (request_world no_dir_env (lit "-l"))).
  - reflexivity.
  - reflexivity.
  - reflexivity.
  - reflexivity.
  - intros t count H. exact H.
  - intro t. vm_compute. discriminate.
  - intro t. vm_compute. discriminate.
  - intro t. vm_compute. discriminate.
Defined.

(** C1.  The code does not do what the claim says.  "-log.txt" is a file
    of the working directory, it opens and the transport is without fault,
    and a client that asks for it gets the listing-follows tag and the
    listing of the directory, not the file-follows tag and the bytes of the
    file. *)
Theorem listed_file_answered_with_listing :
  In (lit "-log.txt") (dir_names sample_env) /\
  option_map fst (env_fopen sample_env (lit "-log.txt")) =
    Some (lit "abc" ++ [LF]) /\
  full_writes sample_env /\
  fst (main_loop_body 5 3 (malloc BUFFER_SIZE)
         (request_world sample_env (lit "-log.txt"))) =
    Ret (frame TAG_DIR) /\
  conn_events 5
    (trace (snd (main_loop_body 5 3 (malloc BUFFER_SIZE)
                   (request_world sample_env (lit "-log.txt"))))) =
    [EvWrite 5 (frame TAG_DIR) 500;
     EvWrite 5 (frame (lit "." ++ [LF])) 500;
     EvWrite 5 (frame (lit ".." ++ [LF])) 500;
     EvWrite 5 (frame (lit "notes.txt" ++ [LF])) 500;
     EvWrite 5 (frame (lit "-log.txt" ++ [LF])) 500;
     EvWrite 5 (frame DONE) 500;
     EvClose 5] /\
  ~ file_response 5 (lit "abc" ++ [LF])
      (conn_events 5
         (trace (snd (main_loop_body 5 3 (malloc BUFFER_SIZE)
                        (request_world sample_env (lit "-log.txt")))))).
Proof.
  split; [vm_compute; tauto|].
  split; [reflexivity|].
  split; [intros t count H; reflexivity|].
  split; [vm_compute; reflexivity|].
  split; [vm_compute; reflexivity|].
  intros [chunks [H _]]. vm_compute in H. discriminate.
Qed.

(** On a stream whose reads all fail the loop never ends: the error
    indicator is not looked at and the end-of-file indicator is never
    set. *)
Lemma sendFile_loop_failing_reads (fd : Z) (fuel : nat) :
  forall (file : FILE) (buffer : list byte) (w : World),
    f_eof file = false ->
    (forall k, f_faults file k = true) ->
    full_writes (env w) ->
    fst (sendFile_loop fuel file buffer fd w) = OutOfFuel.
Proof.
  induction fuel as [|fuel IH]; intros file buffer w He Hf Hw;
    [reflexivity|].
  cbn [sendFile_loop]. unfold feof. rewrite He. cbn [negb].
  unfold fread. rewrite Hf.
  unfold bind at 1. rewrite write_run by lia. cbv beta iota.
  rewrite Hw by lia. change (0 <? 0) with false. cbv iota.
  apply IH; trivial.
Qed.

(** C6.  The code does not do what the claim says.  With a transport
    that takes 3 bytes of the 6-byte chunk of "notes.txt", [sendFile]
    returns as if the file had been sent, and "hel" is all that got
    through.  A request for ".", an entry of every directory, opens a
    stream on which every read fails: the dispatcher never returns and
    never calls [error], whatever the fuel. *)
Theorem sendFile_short_write_and_read_error :
  (fst (sendFile 5 (frame (lit "notes.txt")) 5 51000
          (serving_world short_write_env)) = Ret tt /\
   transmitted
     (trace (snd (sendFile 5 (frame (lit "notes.txt")) 5 51000
                    (serving_world short_write_env)))) = lit "hel") /\
  (forall fuel,
     fst (handleRequest fuel (frame (lit ".")) 5 51000
            (serving_world directory_read_env)) = OutOfFuel).
Proof.
  split; [split; vm_compute; reflexivity|].
  intro fuel.
  destruct (handleRequest_file_step fuel (frame (lit ".")) 5 51000
              (serving_world directory_read_env) [] (fun _ => true))
    as [w3 [r [E [E3 _]]]].
  - reflexivity.
  - reflexivity.
  - vm_compute. discriminate.
  - vm_compute. discriminate.
  - vm_compute. tauto.
  - reflexivity.
  - intros t count H. exact H.
  - rewrite E. unfold bind.
    pose proof (sendFile_loop_failing_reads 5 fuel
                  (fresh_file [] (fun _ => true)) (malloc BUFFER_SIZE) w3)
      as L.
    destruct (sendFile_loop fuel (fresh_file [] (fun _ => true))
                (malloc BUFFER_SIZE) 5 w3) as [o w'].
    cbn [fst] in L. rewrite L; trivial.
    rewrite E3. intros t count H. reflexivity.
Qed.

(** C7.  [sendMsg] writes, in one [write], the text followed by zeros up
    to 500 bytes, and calls [error] when the transport answers with a
    negative number; [recMsg] asks for up to 500 bytes in one [read] into
    a buffer of zeros, and calls [error] when the read fails. *)
Theorem framer_contract (fd : Z) (buffer : list byte) (w : World) :
  length buffer = buffer_len ->
  (forall msg,
     ~ In NUL msg -> (length msg < buffer_len)%nat ->
     let r := env_write (env w) (now w) BUFFER_SIZE in
     length (msg ++ repeat NUL (500 - length msg)) = 500%nat /\
     added w (snd (sendMsg fd buffer msg w)) =
       EvWrite fd (msg ++ repeat NUL (500 - length msg)) r ::
       (if r <? 0 then [EvPerror (lit "ERROR writing message to socket.")]
        else []) /\
     fst (sendMsg fd buffer msg w) =
       if r <? 0 then Exit 1
       else Ret (msg ++ repeat NUL (500 - length msg))) /\
  match inbox w with
  | Some data :: _ =>
      let got := firstn 500 data in
      added w (snd (recMsg buffer fd w)) =
        [EvRead fd 500 (Z.of_nat (length got))] /\
      fst (recMsg buffer fd w) = Ret (got ++ repeat NUL (500 - length got))
  | None :: _ =>
      added w (snd (recMsg buffer fd w)) =
        [EvRead fd 500 (-1); EvPerror (lit "ERROR reading from socket")] /\
      fst (recMsg buffer fd w) = Exit 1
  | [] =>
      added w (snd (recMsg buffer fd w)) = [EvRead fd 500 0] /\
      fst (recMsg buffer fd w) = Ret (repeat NUL 500)
  end.
Proof.
  intro Hb. split.
  - intros msg Hn Hl r.
    destruct (sendMsg_events fd buffer msg w Hb Hn Hl)
      as [r' [w' [E [Hr [_ [_ T]]]]]].
    fold r in Hr. subst r'. rewrite E. cbn [fst snd].
    rewrite (added_app _ _ _ T).
    change 500%nat with buffer_len. fold (frame msg).
    split; [apply frame_length; lia|].
    split; [reflexivity|]. destruct (r <? 0); reflexivity.
  - destruct (inbox w) as [|[data|] rest] eqn:Hi.
    + unfold recMsg. unfold bind at 1 3. rewrite bzero_run by assumption.
      unfold bind, read. rewrite repeat_length.
      change (Z.of_nat buffer_len <? BUFFER_SIZE) with false. cbv beta iota.
      rewrite Hi. change (0 <? 0) with false. cbv iota.
      unfold ret, log. cbn [fst snd trace].
      split; [|reflexivity].
      now apply added_app.
    + rewrite (recMsg_run buffer data rest fd w Hb Hi). cbn [fst snd].
      split; [now apply added_app | reflexivity].
    + unfold recMsg. unfold bind at 1 3. rewrite bzero_run by assumption.
      unfold bind, read. rewrite repeat_length.
      change (Z.of_nat buffer_len <? BUFFER_SIZE) with false. cbv beta iota.
      rewrite Hi. change (-1 <? 0) with true. cbv iota.
      unfold error, log. cbn [fst snd trace].
      split; [|reflexivity].
      apply added_app. cbn [trace]. now rewrite <- app_assoc.
Qed.

Lemma framer_contract_witness :
  (forall msg,
     ~ In NUL msg -> (length msg < buffer_len)%nat ->
     let r := env_write (env (request_world sample_env (lit "notes.txt")))
                (now (request_world sample_env (lit "notes.txt")))
                BUFFER_SIZE in
     length (msg ++ repeat NUL (500 - length msg)) = 500%nat /\
     added (request_world sample_env (lit "notes.txt"))
       (snd (sendMsg 5 (malloc BUFFER_SIZE) msg
               (request_world sample_env (lit "notes.txt")))) =
       EvWrite 5 (msg ++ repeat NUL (500 - length msg)) r ::
       (if r <? 0 then [EvPerror (lit "ERROR writing message to socket.")]
        else []) /\
     fst (sendMsg 5 (malloc BUFFER_SIZE) msg
            (request_world sample_env (lit "notes.txt"))) =
       if r <? 0 then Exit 1
       else Ret (msg ++ repeat NUL (500 - length msg))) /\
  match inbox (request_world sample_env (lit "notes.txt")) with
  | Some data :: _ =>
      let got := firstn 500 data in
      added (request_world sample_env (lit "notes.txt"))
        (snd (recMsg (malloc BUFFER_SIZE) 5
                (request_world sample_env (lit "notes.txt")))) =
        [EvRead 5 500 (Z.of_nat (length got))] /\
      fst (recMsg (malloc BUFFER_SIZE) 5
             (request_world sample_env (lit "notes.txt"))) =
        Ret (got ++ repeat NUL (500 - length got))
  | None :: _ =>
      added (request_world sample_env (lit "notes.txt"))
        (snd (recMsg (malloc BUFFER_SIZE) 5
                (request_world sample_env (lit "notes.txt")))) =
        [EvRead 5 500 (-1); EvPerror (lit "ERROR reading from socket")] /\
      fst (recMsg (malloc BUFFER_SIZE) 5
             (request_world sample_env (lit "notes.txt"))) = Exit 1
  | [] =>
      added (request_world sample_env (lit "notes.txt"))
        (snd (recMsg (malloc BUFFER_SIZE) 5
                (request_world sample_env (lit "notes.txt")))) =
        [EvRead 5 500 0] /\
      fst (recMsg (malloc BUFFER_SIZE) 5
             (request_world sample_env (lit "notes.txt"))) =
        Ret (repeat NUL 500)
  end.
Proof.
  apply (framer_contract 5 (malloc BUFFER_SIZE)
           (request_world sample_env (lit "notes.txt"))).
  reflexivity.
Defined.

(** C8.  On a file whose reads never fail the chunk loop ends: with fuel
    for one more test than the file has chunks the loop does not run out
    of it; it returns, or a failed write ends the process, after at most
    one write per 500 bytes of the file and one more, and it returns when
    the transport takes every byte. *)
Theorem chunk_loop_terminates (fd : Z) (fuel : nat)
    (content buffer : list byte) (faults : nat -> bool) (w : World) :
  (forall k, faults k = false) ->
  (length content < 500 * (fuel - 1))%nat ->
  (fst (sendFile_loop fuel (fresh_file content faults) buffer fd w) = Ret tt
   \/
   fst (sendFile_loop fuel (fresh_file content faults) buffer fd w) = Exit 1)
  /\
  (500 * (length (written
                    (added w (snd (sendFile_loop fuel
                                     (fresh_file content faults)
                                     buffer fd w)))) - 1)
   <= length content)%nat /\
  (full_writes (env w) ->
   fst (sendFile_loop fuel (fresh_file content faults) buffer fd w) = Ret tt).
Proof.
  intros Hf Hl.
  destruct (sendFile_loop_halts fd fuel (fresh_file content faults) buffer w)
    as [o [w' [evs [E [O [T N]]]]]]; trivial.
  rewrite E. cbn [fst snd]. rewrite (added_app _ _ _ T).
  repeat split; trivial.
  intro Hw.
  destruct (sendFile_loop_run fd fuel (fresh_file content faults) buffer w)
    as [w2 [chunks [E2 _]]]; trivial.
  congruence.
Qed.

Lemma chunk_loop_terminates_witness :
  (fst (sendFile_loop 5 (fresh_file (lit "hello" ++ [LF]) (fun _ => false))
          (malloc BUFFER_SIZE) 5 (serving_world sample_env)) = Ret tt
   \/
   fst (sendFile_loop 5 (fresh_file (lit "hello" ++ [LF]) (fun _ => false))
          (malloc BUFFER_SIZE) 5 (serving_world sample_env)) = Exit 1)
  /\
  (500 * (length (written
                    (added (serving_world sample_env)
                       (snd (sendFile_loop 5
                               (fresh_file (lit "hello" ++ [LF])
                                  (fun _ => false))
                               (malloc BUFFER_SIZE) 5
                               (serving_world sample_env))))) - 1)
   <= length (lit "hello" ++ [LF]))%nat /\
  (full_writes (env (serving_world sample_env)) ->
   fst (sendFile_loop 5 (fresh_file (lit "hello" ++ [LF]) (fun _ => false))
          (malloc BUFFER_SIZE) 5 (serving_world sample_env)) = Ret tt).
Proof.
  apply (chunk_loop_terminates 5 5 (lit "hello" ++ [LF]) (malloc BUFFER_SIZE)
           (fun _ => false) (serving_world sample_env)).
  - intro k. reflexivity.
  - vm_compute. lia.
Defined.

(** * Further properties of the code *)

(** ** The membership test *)

(** X1.  [inDir] answers 1 when the string of its argument is, byte for
    byte, the name of an entry of the working directory, and 0 otherwise;
    it leaves the world as it found it. *)
Theorem inDir_membership (fileName : list byte) (w : World) :
  exists found,
    inDir fileName w = (Ret found, w) /\
    (found = 0 \/ found = 1) /\
    (found = 1 <-> In (until_nul fileName) (dir_names (env w))).
Proof.
  exists (dir_lookup (env w) fileName). rewrite inDir_run.
  split; [reflexivity|].
  destruct (dir_lookup_spec (env w) fileName) as [Y N].
  destruct (in_dec (list_eq_dec Byte.byte_eq_dec)
              (until_nul fileName) (dir_names (env w))) as [H|H].
  - rewrite (Y H). split; [now right | tauto].
  - rewrite (N H). split; [now left|]. split; [discriminate | contradiction].
Qed.

(** ** The sentinel *)

Lemma sentinel_not_listing (buffer : list byte) :
  firstn 5 buffer = lit "%none" -> firstn 2 buffer <> lit "-l".
Proof.
  destruct buffer as [|a [|b r]]; try discriminate.
  cbn [firstn]. intros H E. injection H as Ha _. injection E as Ea _.
  rewrite Ha in Ea. discriminate.
Qed.

(** X2.  Every command that begins with "%none", whatever follows, is
    answered with the unknown-command tag alone: the write of the frame of
    the tag is the only event the dispatcher adds, nothing is printed, and
    it returns that frame; unless the write is refused, and then it
    reports the error and exits with status 1. *)
Theorem sentinel_unknown_command (fuel : nat) (buffer : list byte)
    (fd portNum : Z) (w : World) :
  length buffer = buffer_len ->
  firstn 5 buffer = lit "%none" ->
  let r := env_write (env w) (now w) BUFFER_SIZE in
  added w (snd (handleRequest fuel buffer fd portNum w)) =
    EvWrite fd (frame TAG_UNK) r ::
    (if r <? 0 then [EvPerror (lit "ERROR writing message to socket.")]
     else []) /\
  fst (handleRequest fuel buffer fd portNum w) =
    if r <? 0 then Exit 1 else Ret (frame TAG_UNK).
Proof.
  intros Hb HN r.
  destruct tags_no_nul as [_ [_ [_ [Nu _]]]].
  unfold handleRequest.
  rewrite (not_listing buffer (sentinel_not_listing buffer HN)).
  rewrite (proj2 (is_sentinel_iff buffer) HN). cbn [negb].
  destruct (sendMsg_events fd buffer TAG_UNK w Hb Nu)
    as [r' [w' [E [Hr [_ [_ T]]]]]];
    [rewrite buffer_len_eq; simpl; lia|].
  fold r in Hr. subst r'. fold TAG_UNK. rewrite E. cbn [fst snd].
  now rewrite (added_app _ _ _ T).
Qed.

Lemma sentinel_unknown_command_witness :
  let r := env_write (env (serving_world sample_env))
             (now (serving_world sample_env)) BUFFER_SIZE in
  added (serving_world sample_env)
    (snd (handleRequest 5 (frame (lit "%none.txt")) 5 51000
            (serving_world sample_env))) =
    EvWrite 5 (frame TAG_UNK) r ::
    (if r <? 0 then [EvPerror (lit "ERROR writing message to socket.")]
     else []) /\
  fst (handleRequest 5 (frame (lit "%none.txt")) 5 51000
         (serving_world sample_env)) =
    if r <? 0 then Exit 1 else Ret (frame TAG_UNK).
Proof.
  apply (sentinel_unknown_command 5 (frame (lit "%none.txt")) 5 51000
           (serving_world sample_env)).
  - reflexivity.
  - reflexivity.
Defined.

(** ** The framer, end to end *)

(** X3.  What [sendMsg] writes, [recMsg] reads back: when a peer's read
    delivers the buffer one call of [sendMsg] wrote, [recMsg] returns that
    buffer, and the string in it is the text that was sent. *)
Theorem sendMsg_recMsg_round_trip (fd fd' : Z) (buffer buffer' msg data : list byte)
    (r : Z) (rest : list (option (list byte))) (w w2 : World) :
  length buffer = buffer_len ->
  length buffer' = buffer_len ->
  ~ In NUL msg ->
  (length msg < buffer_len)%nat ->
  In (EvWrite fd data r) (added w (snd (sendMsg fd buffer msg w))) ->
  inbox w2 = Some data :: rest ->
  fst (recMsg buffer' fd' w2) = Ret data /\ until_nul data = msg.
Proof.
  intros Hb Hb' Hn Hl Hin Hi.
  destruct (sendMsg_events fd buffer msg w Hb Hn Hl)
    as [r' [w' [E [_ [_ [_ T]]]]]].
  rewrite E in Hin. cbn [snd] in Hin. rewrite (added_app _ _ _ T) in Hin.
  assert (D : data = frame msg).
  { destruct Hin as [H|H]; [congruence|].
    destruct (r' <? 0); simpl in H; [|contradiction].
    destruct H as [H|[]]. discriminate. }
  subst data.
  rewrite (recMsg_run buffer' (frame msg) rest fd' w2 Hb' Hi). cbn [fst].
  rewrite firstn_all2 by (rewrite frame_length; lia).
  split; [|now apply frame_until_nul].
  f_equal. unfold frame at 1. rewrite frame_length by lia.
  rewrite Nat.sub_diag. apply app_nil_r.
Qed.

Lemma sendMsg_recMsg_round_trip_witness :
  fst (recMsg (malloc BUFFER_SIZE) 4
         {| env := sample_env; inbox := [Some (frame TAG_FIL)]; trace := [] |})
    = Ret (frame TAG_FIL) /\
  until_nul (frame TAG_FIL) = TAG_FIL.
Proof.
  apply (sendMsg_recMsg_round_trip 5 4 (malloc BUFFER_SIZE)
           (malloc BUFFER_SIZE) TAG_FIL (frame TAG_FIL) 500 []
           (serving_world sample_env)
           {| env := sample_env; inbox := [Some (frame TAG_FIL)];
              trace := [] |}).
  - reflexivity.
  - reflexivity.
  - vm_compute. intuition discriminate.
  - vm_compute. lia.
  - vm_compute. left. reflexivity.
  - reflexivity.
Defined.

(** ** No state from one turn to the next *)

Lemma recMsg_buffer_irrelevant (b1 b2 : list byte) (fd : Z) (w : World) :
  length b1 = buffer_len -> length b2 = buffer_len ->
  recMsg b1 fd w = recMsg b2 fd w.
Proof.
  intros H1 H2. unfold recMsg. unfold bind at 1 3.
  now rewrite !bzero_run by assumption.
Qed.

(** X4.  A turn of the loop does not depend on what the buffer held: the
    command buffer is zeroed before the command is read into it, so
    nothing of the previous request is seen by the next one. *)
Theorem turn_forgets_buffer (fuel : nat) (listenSockFD : Z)
    (b1 b2 : list byte) (w : World) :
  length b1 = buffer_len -> length b2 = buffer_len ->
  main_loop_body fuel listenSockFD b1 w =
  main_loop_body fuel listenSockFD b2 w.
Proof.
  intros H1 H2. unfold main_loop_body. unfold bind at 1 12.
  destruct (acceptClient listenSockFD w) as [[c|s| |] w1]; trivial.
  unfold bind at 1 11.
  now rewrite (recMsg_buffer_irrelevant b1 b2 c w1 H1 H2).
Qed.

Lemma turn_forgets_buffer_witness :
  main_loop_body 5 3 (frame (lit "-l"))
    (request_world sample_env (lit "notes.txt")) =
  main_loop_body 5 3 (malloc BUFFER_SIZE)
    (request_world sample_env (lit "notes.txt")).
Proof.
  apply (turn_forgets_buffer 5 3 (frame (lit "-l")) (malloc BUFFER_SIZE)
           (request_world sample_env (lit "notes.txt"))).
  - reflexivity.
  - reflexivity.
Defined.

(** ** Staying within what C defines *)

Section Safety.
Variable e : Env.

Lemma safe_ret {A : Type} (Q : A -> Prop) (a : A) : Q a -> safe e Q (ret a).
Proof. intros H w Hw. simpl. now split. Qed.

Lemma safe_bind {A B : Type} (Q : A -> Prop) (R : B -> Prop)
    (m : M A) (k : A -> M B) :
  safe e Q m -> (forall a, Q a -> safe e R (k a)) -> safe e R (bind m k).
Proof.
  intros Hm Hk w Hw. unfold bind. specialize (Hm w Hw).
  destruct (m w) as [[a|s| |] w1]; trivial.
  destruct Hm as [Qa E1]. exact (Hk a Qa w1 E1).
Qed.

Lemma safe_weaken {A : Type} (Q R : A -> Prop) (m : M A) :
  (forall a, Q a -> R a) -> safe e Q m -> safe e R m.
Proof.
  intros H Hm w Hw. specialize (Hm w Hw).
  destruct (m w) as [[a|s| |] w1]; trivial.
  destruct Hm. split; auto.
Qed.

Lemma safe_emit (ev : event) : safe e (fun _ => True) (emit ev).
Proof. intros w Hw. simpl. now split. Qed.

Lemma safe_printf (fmt : list byte) (args : list printf_arg) :
  safe e (fun _ => True) (printf fmt args).
Proof. apply safe_emit. Qed.

Lemma safe_error {A : Type} (Q : A -> Prop) (msg : list byte) :
  safe e Q (error msg).
Proof. intros w Hw. exact Hw. Qed.

Lemma safe_out_of_fuel {A : Type} (Q : A -> Prop) : safe e Q out_of_fuel.
Proof. intros w Hw. exact Hw. Qed.

Lemma safe_ask : safe e (fun x => x = e) ask.
Proof. intros w Hw. simpl. now split. Qed.

Lemma safe_clock : safe e (fun _ => True) clock.
Proof. intros w Hw. simpl. now split. Qed.

Lemma safe_write (fd : Z) (buf : list byte) (count : Z) :
  count <= Z.of_nat (length buf) ->
  safe e (fun _ => True) (write fd buf count).
Proof.
  intros H w Hw. rewrite write_run by exact H. simpl. now split.
Qed.

Lemma safe_sendMsg (fd : Z) (buffer msg : list byte) :
  length buffer = buffer_len ->
  (length (until_nul msg) < buffer_len)%nat ->
  safe e (fun b => length b = buffer_len) (sendMsg fd buffer msg).
Proof.
  intros Hb Hm w Hw. rewrite sendMsg_run by assumption.
  unfold sendMsg_result.
  destruct (env_write (env w) (now w) BUFFER_SIZE <? 0); simpl.
  - exact Hw.
  - split; [apply frame_length; lia | exact Hw].
Qed.

Lemma safe_sendFile_loop (fd : Z) (fuel : nat) :
  forall file buffer,
    safe e (fun _ => True) (sendFile_loop fuel file buffer fd).
Proof.
  induction fuel as [|fuel IH]; intros file buffer; simpl.
  - apply safe_out_of_fuel.
  - destruct (negb (feof file)); [|now apply safe_ret].
    unfold fread.
    destruct (f_faults file (f_calls file)).
    + apply safe_bind with (Q := fun _ => True).
      * apply safe_write. lia.
      * intros r _. destruct (r <? 0); [apply safe_error | apply IH].
    + apply safe_bind with (Q := fun _ => True).
      * apply safe_write. rewrite length_app. lia.
      * intros r _. destruct (r <? 0); [apply safe_error | apply IH].
Qed.

Lemma safe_sendFile (fd portNum : Z) (fuel : nat) (fileName : list byte) :
  terminated fileName = true ->
  safe e (fun _ => True) (sendFile fuel fileName fd portNum).
Proof.
  intro Ht. unfold sendFile.
  apply safe_bind with (Q := fun _ => True).
  - unfold fopen.
    apply safe_bind with (Q := fun x => x = e); [apply safe_ask|].
    intros x Hx. subst x.
    destruct (env_fopen e (until_nul fileName)) as [[c f]|];
      now apply safe_ret.
  - intros [file|] _; [|apply safe_error].
    unfold string_arg. rewrite Ht.
    apply safe_bind with (Q := fun _ => True); [now apply safe_ret|].
    intros name _.
    apply safe_bind with (Q := fun _ => True); [apply safe_printf|].
    intros _ _. apply safe_sendFile_loop.
Qed.

Lemma safe_inDir (fileName : list byte) :
  safe e (fun _ => True) (inDir fileName).
Proof. intros w Hw. rewrite inDir_run. simpl. now split. Qed.

Lemma safe_handleRequest (fuel : nat) (buffer : list byte)
    (fd portNum : Z) :
  length buffer = buffer_len ->
  firstn 2 buffer <> lit "-l" ->
  firstn 5 buffer = lit "%none" \/ terminated buffer = true ->
  safe e (fun b => length b = buffer_len)
    (handleRequest fuel buffer fd portNum).
Proof.
  intros Hb NL Hc.
  assert (Tag : forall tag,
             In tag [TAG_DIR; TAG_FIL; TAG_NOF; TAG_UNK] ->
             safe e (fun b => length b = buffer_len)
               (sendMsg fd buffer tag)).
  { intros tag Ht. apply safe_sendMsg; [exact Hb|].
    rewrite buffer_len_eq. simpl in Ht.
    destruct Ht as [<-|[<-|[<-|[<-|[]]]]]; vm_compute; lia. }
  unfold handleRequest.
  destruct (strncmp buffer (lit "-l") 2 =? 0) eqn:EL.
  { apply is_listing_iff in EL. contradiction. }
  destruct (strncmp buffer (lit "%none") 5 =? 0) eqn:EN; cbn [negb].
  { apply (Tag TAG_UNK). simpl; tauto. }
  assert (ET : terminated buffer = true).
  { destruct Hc as [H|H]; trivial.
    apply is_sentinel_iff in H. congruence. }
  unfold string_arg. rewrite ET.
  apply safe_bind with (Q := fun _ => True); [now apply safe_ret|].
  intros name _.
  apply safe_bind with (Q := fun _ => True); [apply safe_printf|].
  intros _ _.
  apply safe_bind with (Q := fun _ => True); [apply safe_inDir|].
  intros found _.
  destruct (negb (found =? 0)).
  - apply safe_bind with (Q := fun f => terminated f = true).
    + intros w Hw. unfold malloc.
      change (Z.to_nat BUFFER_SIZE) with buffer_len.
      rewrite strcpy_zeros
        by (rewrite <- Hb; now apply until_nul_terminated_length).
      split; [|exact Hw]. apply frame_terminated.
      rewrite <- Hb. now apply until_nul_terminated_length.
    + intros fileName Hf.
      apply safe_bind with (Q := fun b => length b = buffer_len).
      * apply (Tag TAG_FIL). simpl; tauto.
      * intros b Hl.
        apply safe_bind with (Q := fun _ => True);
          [now apply safe_sendFile|].
        intros. now apply safe_ret.
  - apply safe_bind with (Q := fun _ => True); [apply safe_printf|].
    intros _ _. apply (Tag TAG_NOF). simpl; tauto.
Qed.
End Safety.

(** X5.  With a buffer of 500 bytes, a command that is not a listing
    request takes the dispatcher out of what C and the C library of the
    platform define in one case only: the command is not the sentinel and
    fills the buffer without a NUL, so that the file name is read past the
    end of the buffer.  Then it does so before any call; in every other
    case the dispatcher stays defined, and a buffer it returns has 500
    bytes.  (The listing, which appends to the name inside the directory
    entry, is left out.) *)
Theorem handleRequest_undefined_iff (fuel : nat) (buffer : list byte)
    (fd portNum : Z) (w : World) :
  length buffer = buffer_len ->
  firstn 2 buffer <> lit "-l" ->
  (fst (handleRequest fuel buffer fd portNum w) = Undefined <->
   firstn 5 buffer <> lit "%none" /\ terminated buffer = false) /\
  (fst (handleRequest fuel buffer fd portNum w) = Undefined ->
   snd (handleRequest fuel buffer fd portNum w) = w) /\
  (forall b, fst (handleRequest fuel buffer fd portNum w) = Ret b ->
             length b = buffer_len).
Proof.
  intros Hb NL.
  destruct (handleRequest_cases fuel buffer fd portNum w Hb)
    as [[L _] | [[L [N _]] | [[L [N [T U]]] | [[L [N [T _]]]
       | [L [N [T _]]]]]]]; [contradiction| | | |].
  2:{ rewrite U. cbn [fst snd]. repeat split; trivial; discriminate. }
  all: pose proof (safe_handleRequest (env w) fuel buffer fd portNum Hb NL)
         as S;
       specialize (S ltac:(tauto) w eq_refl);
       destruct (handleRequest fuel buffer fd portNum w) as [[b|s| |] w'];
       cbn [fst snd]; try contradiction;
       (split; [split; [discriminate | intros [? ?]; congruence]|]);
       (split; [discriminate|]);
       intros b' Hb'; try discriminate;
       injection Hb' as <-; tauto.
Qed.

Lemma handleRequest_undefined_iff_witness :
  (fst (handleRequest 5 (repeat x41 500) 5 51000 (serving_world sample_env))
     = Undefined <->
   firstn 5 (repeat x41 500) <> lit "%none" /\
   terminated (repeat x41 500) = false) /\
  (fst (handleRequest 5 (repeat x41 500) 5 51000 (serving_world sample_env))
     = Undefined ->
   snd (handleRequest 5 (repeat x41 500) 5 51000 (serving_world sample_env))
     = serving_world sample_env) /\
  (forall b,
     fst (handleRequest 5 (repeat x41 500) 5 51000
            (serving_world sample_env)) = Ret b ->
     length b = buffer_len).
Proof.
  apply (handleRequest_undefined_iff 5 (repeat x41 500) 5 51000
           (serving_world sample_env)).
  - reflexivity.
  - vm_compute. discriminate.
Defined.

(** ** What a call adds to the trace, and how it ends the process *)

Section Confinement.
Variable P : event -> Prop.
Hypothesis P_printf : forall fmt args, P (EvPrintf fmt args).
Hypothesis P_perror : forall msg, P (EvPerror msg).

Lemma confined_silent {A : Type} (o : outcome A) :
  (forall s, o = Exit s -> s = 1) -> confined P (fun w => (o, w)).
Proof.
  intros H w. exists []. simpl. rewrite app_nil_r.
  repeat split; [constructor | exact H].
Qed.

Lemma confined_ret {A : Type} (a : A) : confined P (ret a).
Proof. apply confined_silent. discriminate. Qed.

Lemma confined_undefined {A : Type} : confined P (@undefined A).
Proof. apply confined_silent. discriminate. Qed.

Lemma confined_out_of_fuel {A : Type} : confined P (@out_of_fuel A).
Proof. apply confined_silent. discriminate. Qed.

Lemma confined_ask : confined P ask.
Proof. intro w. apply (confined_silent (Ret (env w))). discriminate. Qed.

Lemma confined_clock : confined P clock.
Proof. intro w. apply (confined_silent (Ret (now w))). discriminate. Qed.

Lemma confined_bind {A B : Type} (m : M A) (k : A -> M B) :
  confined P m -> (forall a, confined P (k a)) -> confined P (bind m k).
Proof.
  intros Hm Hk w. unfold bind.
  destruct (Hm w) as [e1 [T1 [F1 X1]]].
  destruct (m w) as [[a|s| |] w1]; cbn [fst snd] in *;
    try (exists e1; repeat split; trivial;
         intros s0 H0; try discriminate;
         injection H0 as <-; now apply X1).
  destruct (Hk a w1) as [e2 [T2 [F2 X2]]].
  exists (e1 ++ e2). repeat split.
  - rewrite T2, T1. now rewrite app_assoc.
  - apply Forall_app. now split.
  - exact X2.
Qed.

Lemma confined_emit (ev : event) : P ev -> confined P (emit ev).
Proof.
  intros H w. exists [ev]. simpl.
  repeat split; [now constructor | discriminate].
Qed.

Lemma confined_error {A : Type} (msg : list byte) :
  confined P (@error A msg).
Proof.
  intro w. exists [EvPerror msg]. simpl.
  repeat split; [now constructor | congruence].
Qed.

Lemma confined_printf (fmt : list byte) (args : list printf_arg) :
  confined P (printf fmt args).
Proof. now apply confined_emit. Qed.

Section OnDescriptor.
Variable fd : Z.
Hypothesis P_write : forall data r, P (EvWrite fd data r).

Lemma confined_write (buf : list byte) (count : Z) :
  confined P (write fd buf count).
Proof.
  unfold write. destruct (Z.of_nat (length buf) <? count).
  - apply confined_undefined.
  - apply confined_bind; [apply confined_ask | intro e].
    apply confined_bind; [apply confined_clock | intro t].
    apply confined_bind; [now apply confined_emit | intros _].
    apply confined_ret.
Qed.

Lemma confined_sendMsg (buffer msg : list byte) :
  confined P (sendMsg fd buffer msg).
Proof.
  unfold sendMsg.
  apply confined_bind.
  { unfold bzero. destruct (_ <? _);
      [apply confined_undefined | apply confined_ret]. }
  intro b1. apply confined_bind.
  { unfold strcpy. destruct (_ <=? _)%nat;
      [apply confined_undefined | apply confined_ret]. }
  intro b2. apply confined_bind; [apply confined_write | intro r].
  destruct (r <? 0); [apply confined_error | apply confined_ret].
Qed.

Lemma confined_sendDir (portNum : Z) : confined P (sendDir fd portNum).
Proof.
  unfold sendDir.
  apply confined_bind; [apply confined_ask | intro e].
  destruct (env_dir e) as [entries|]; [|apply confined_ret].
  apply confined_bind; [apply confined_printf | intros _].
  apply confined_bind.
  - generalize (malloc BUFFER_SIZE).
    induction entries as [|d entries IH]; intro buffer; simpl.
    + apply confined_ret.
    + apply confined_bind; [apply confined_sendMsg | exact IH].
  - intro b. apply confined_bind; [apply confined_sendMsg | intros _].
    apply confined_ret.
Qed.

Lemma confined_sendFile (fuel : nat) (fileName : list byte)
    (portNum : Z) :
  confined P (sendFile fuel fileName fd portNum).
Proof.
  unfold sendFile. apply confined_bind.
  { unfold fopen.
    apply confined_bind; [apply confined_ask | intro e].
    destruct (env_fopen e (until_nul fileName)) as [[c f]|];
      apply confined_ret. }
  intros [file|]; [|apply confined_error].
  apply confined_bind.
  { unfold string_arg. destruct (terminated fileName);
      [apply confined_ret | apply confined_undefined]. }
  intro name. apply confined_bind; [apply confined_printf | intros _].
  generalize (malloc BUFFER_SIZE). revert file.
  induction fuel as [|fuel IH]; intros file buffer; simpl.
  - apply confined_out_of_fuel.
  - destruct (negb (feof file)); [|apply confined_ret].
    destruct (fread buffer 500 file) as [[n b] f].
    apply confined_bind; [apply confined_write | intro r].
    destruct (r <? 0); [apply confined_error | apply IH].
Qed.

Lemma confined_handleRequest (fuel : nat) (buffer : list byte)
    (portNum : Z) :
  confined P (handleRequest fuel buffer fd portNum).
Proof.
  unfold handleRequest.
  destruct (strncmp buffer (lit "-l") 2 =? 0).
  { apply confined_bind; [apply confined_printf | intros _].
    apply confined_bind; [apply confined_sendMsg | intro b].
    apply confined_bind; [apply confined_sendDir | intros _].
    apply confined_ret. }
  destruct (negb (strncmp buffer (lit "%none") 5 =? 0));
    [|apply confined_sendMsg].
  apply confined_bind.
  { unfold string_arg. destruct (terminated buffer);
      [apply confined_ret | apply confined_undefined]. }
  intro name. apply confined_bind; [apply confined_printf | intros _].
  apply confined_bind.
  { intro w. rewrite inDir_run.
    apply (confined_silent (Ret (dir_lookup (env w) buffer))).
    discriminate. }
  intro found. destruct (negb (found =? 0)).
  - apply confined_bind.
    { unfold strcpy. destruct (_ <=? _)%nat;
        [apply confined_undefined | apply confined_ret]. }
    intro fileName.
    apply confined_bind; [apply confined_sendMsg | intro b].
    apply confined_bind; [apply confined_sendFile | intros _].
    apply confined_ret.
  - apply confined_bind; [apply confined_printf | intros _].
    apply confined_sendMsg.
Qed.
End OnDescriptor.
End Confinement.

Lemma handleRequest_events (fuel : nat) (buffer : list byte)
    (fd portNum : Z) (w : World) :
  exists evs,
    trace (snd (handleRequest fuel buffer fd portNum w)) = trace w ++ evs /\
    Forall (dispatch_event fd) evs /\
    (forall s, fst (handleRequest fuel buffer fd portNum w) = Exit s ->
               s = 1).
Proof.
  apply (confined_handleRequest (dispatch_event fd)); simpl; trivial.
Qed.

(** X6.  Whatever the command and whatever the environment answers, the
    dispatcher only prints to the console and writes to the descriptor it
    was given: it never reads, accepts, connects, opens a socket, sleeps
    or closes. *)
Theorem handleRequest_confined (fuel : nat) (buffer : list byte)
    (fd portNum : Z) (w : World) :
  exists evs,
    trace (snd (handleRequest fuel buffer fd portNum w)) = trace w ++ evs /\
    Forall (dispatch_event fd) evs.
Proof.
  destruct (handleRequest_events fuel buffer fd portNum w) as [evs [T [F _]]].
  now exists evs.
Qed.

(** ** One turn of the loop, stage by stage *)

Lemma acceptClient_cases (servFD : Z) (w : World) :
  exists a w',
    env w' = env w /\ inbox w' = inbox w /\
    ((a < 0 /\
      acceptClient servFD w = (Exit 1, w') /\
      trace w' = trace w ++
        [EvAccept servFD a; EvPerror (lit "ERROR on accept")])
     \/
     (0 <= a /\
      acceptClient servFD w = (Ret a, w') /\
      trace w' = trace w ++
        [EvAccept servFD a;
         EvPrintf (lit "Connection from client." ++ [LF]) []])).
Proof.
  exists (env_accept (env w) (now w)).
  unfold acceptClient, accept.
  destruct (env_accept (env w) (now w) <? 0) eqn:E.
  - eexists. split; [|split]; [| |left; split; [now apply Z.ltb_lt|split]].
    3:{ unfold bind, ask, clock, emit, ret, error. cbv beta iota.
        rewrite E. reflexivity. }
    all: unfold log; cbn [env inbox trace]; rewrite <- ?app_assoc;
      reflexivity.
  - eexists. split; [|split]; [| |right; split; [now apply Z.ltb_ge|split]].
    3:{ unfold bind, ask, clock, emit, ret, printf. cbv beta iota.
        rewrite E. reflexivity. }
    all: unfold log; cbn [env inbox trace]; rewrite <- ?app_assoc;
      reflexivity.
Qed.

Lemma recMsg_cases (buffer : list byte) (fd : Z) (w : World) :
  length buffer = buffer_len ->
  exists n w',
    env w' = env w /\ inbox w' = tl (inbox w) /\
    ((n < 0 /\
      recMsg buffer fd w = (Exit 1, w') /\
      trace w' = trace w ++
        [EvRead fd BUFFER_SIZE n; EvPerror (lit "ERROR reading from socket")])
     \/
     (0 <= n /\
      recMsg buffer fd w =
        (Ret (frame (firstn buffer_len (next_read w))), w') /\
      trace w' = trace w ++ [EvRead fd BUFFER_SIZE n])).
Proof.
  intro Hb. unfold next_read.
  destruct (inbox w) as [|[data|] rest] eqn:Hi.
  - exists 0. eexists. split; [|split]; [| |right; split; [lia|split]].
    3:{ unfold recMsg. unfold bind at 1. rewrite bzero_run by assumption.
        unfold bind, read. rewrite repeat_length.
        change (Z.of_nat buffer_len <? BUFFER_SIZE) with false.
        cbv beta iota. rewrite Hi. change (0 <? 0) with false. cbv iota.
        unfold ret. reflexivity. }
    all: unfold log; cbn [env inbox trace]; rewrite ?Hi; reflexivity.
  - exists (Z.of_nat (length (firstn buffer_len data))). eexists.
    split; [|split]; [| |right; split; [lia|split]].
    3:{ apply (recMsg_run buffer data rest fd w Hb Hi). }
    all: reflexivity.
  - exists (-1). eexists. split; [|split]; [| |left; split; [lia|split]].
    3:{ unfold recMsg. unfold bind at 1. rewrite bzero_run by assumption.
        unfold bind, read. rewrite repeat_length.
        change (Z.of_nat buffer_len <? BUFFER_SIZE) with false.
        cbv beta iota. rewrite Hi. change (-1 <? 0) with true. cbv iota.
        unfold error. reflexivity. }
    all: unfold log; cbn [env inbox trace]; rewrite <- ?app_assoc;
      reflexivity.
Qed.

Lemma createSocket_cases (w : World) :
  exists s w',
    env w' = env w /\ inbox w' = inbox w /\
    ((s < 0 /\
      createSocket w = (Exit 1, w') /\
      trace w' = trace w ++
        [EvSocket s; EvPerror (lit "ERROR opening socket")])
     \/
     (0 <= s /\
      createSocket w = (Ret s, w') /\
      trace w' = trace w ++ [EvSocket s])).
Proof.
  exists (env_socket (env w) (now w)).
  unfold createSocket, socket.
  destruct (env_socket (env w) (now w) <? 0) eqn:E.
  - eexists. split; [|split]; [| |left; split; [now apply Z.ltb_lt|split]].
    3:{ unfold bind, ask, clock, emit, ret, error. cbv beta iota.
        rewrite E. reflexivity. }
    all: unfold log; cbn [env inbox trace]; rewrite <- ?app_assoc;
      reflexivity.
  - eexists. split; [|split]; [| |right; split; [now apply Z.ltb_ge|split]].
    3:{ unfold bind, ask, clock, emit, ret. cbv beta iota.
        rewrite E. reflexivity. }
    all: reflexivity.
Qed.

(** The dispatch and what follows it in a turn: the data connection is
    closed exactly when the dispatcher returns. *)
Lemma dispatch_and_close (fuel : nat) (buffer : list byte)
    (fd portNum : Z) (w : World) :
  exists evs o w',
    Forall (dispatch_event fd) evs /\
    (b <- handleRequest fuel buffer fd portNum ;;
     printf (lit "Closing data connection." ++ [LF]) [] ;;
     printf [LF; LF] [] ;;
     close fd ;;
     ret b) w = (o, w') /\
    (forall s, o = Exit s -> s = 1) /\
    env w' = env (snd (handleRequest fuel buffer fd portNum w)) /\
    ((exists b,
        fst (handleRequest fuel buffer fd portNum w) = Ret b /\
        o = Ret b /\
        trace w' = trace w ++ evs ++
          [EvPrintf (lit "Closing data connection." ++ [LF]) [];
           EvPrintf [LF; LF] []; EvClose fd])
     \/
     ((forall b, o <> Ret b) /\
      o = fst (handleRequest fuel buffer fd portNum w) /\
      trace w' = trace w ++ evs)).
Proof.
  destruct (handleRequest_events fuel buffer fd portNum w)
    as [evs [T [F X]]].
  exists evs. unfold bind at 1.
  destruct (handleRequest fuel buffer fd portNum w) as [[b|s| |] w1];
    cbn [fst snd] in *; do 2 eexists;
    (split; [exact F|]); (split; [reflexivity|]).
  - split; [discriminate|]. split; [reflexivity|]. left. exists b.
    repeat split. unfold log. cbn [trace]. rewrite T.
    now rewrite <- !app_assoc.
  - split; [exact X|]. split; [reflexivity|]. right.
    repeat split; trivial. discriminate.
  - split; [discriminate|]. split; [reflexivity|]. right.
    repeat split; trivial. discriminate.
  - split; [discriminate|]. split; [reflexivity|]. right.
    repeat split; trivial. discriminate.
Qed.

(** A turn either fails before the dispatch, with exit status 1, or
    reaches it after the handshake. *)
Lemma turn_cases (fuel : nat) (listenSockFD : Z) (buffer : list byte)
    (w : World) :
  length buffer = buffer_len ->
  (exists w' pre,
     main_loop_body fuel listenSockFD buffer w = (Exit 1, w') /\
     env w' = env w /\
     trace w' = trace w ++ pre /\
     written pre = [] /\ closes pre = [])
  \/
  (exists cfd n1 n2 dfd dport cr w1,
     0 <= cfd /\ 0 <= n1 /\ 0 <= n2 /\ 0 <= dfd /\ 0 <= cr /\
     main_loop_body fuel listenSockFD buffer w =
       (b <- handleRequest fuel (frame (firstn buffer_len (next_read w)))
               dfd dport ;;
        printf (lit "Closing data connection." ++ [LF]) [] ;;
        printf [LF; LF] [] ;;
        close dfd ;;
        ret b) w1 /\
     env w1 = env w /\
     trace w1 = trace w ++
       [EvAccept listenSockFD cfd;
        EvPrintf (lit "Connection from client." ++ [LF]) [];
        EvRead cfd BUFFER_SIZE n1;
        EvRead cfd BUFFER_SIZE n2;
        EvSleep 1;
        EvSocket dfd;
        EvConnect dfd dport cr]).
Proof.
  intro Hb.
  destruct (acceptClient_cases listenSockFD w)
    as [cfd [w1 [E1 [I1 [[A1 [R1 T1]] | [A1 [R1 T1]]]]]]].
  { left. exists w1. eexists. split.
    { unfold main_loop_body. unfold bind at 1. rewrite R1. reflexivity. }
    repeat split; [exact E1 | exact T1 | |]; reflexivity. }
  destruct (recMsg_cases buffer cfd w1 Hb)
    as [n1 [w2 [E2 [I2 [[A2 [R2 T2]] | [A2 [R2 T2]]]]]]].
  { left. exists w2. eexists. split.
    { unfold main_loop_body. unfold bind at 1. rewrite R1.
      unfold bind at 1. rewrite R2. reflexivity. }
    repeat split; [congruence | | |].
    - rewrite T2, T1. rewrite <- app_assoc. reflexivity.
    - reflexivity.
    - reflexivity. }
  destruct (recMsg_cases (malloc BUFFER_SIZE) cfd w2 malloc_buffer_length)
    as [n2 [w3 [E3 [I3 [[A3 [R3 T3]] | [A3 [R3 T3]]]]]]].
  { left. exists w3. eexists. split.
    { unfold main_loop_body. unfold bind at 1. rewrite R1.
      unfold bind at 1. rewrite R2. unfold bind at 1. rewrite R3.
      reflexivity. }
    repeat split; [congruence | | |].
    - rewrite T3, T2, T1. rewrite <- !app_assoc. reflexivity.
    - reflexivity.
    - reflexivity. }
  destruct (createSocket_cases (log (EvSleep 1) w3))
    as [dfd [w4 [E4 [I4 [[A4 [R4 T4]] | [A4 [R4 T4]]]]]]];
    cbn [env log trace] in E4, T4.
  { left. exists w4. eexists. split.
    { unfold main_loop_body. unfold bind at 1. rewrite R1.
      unfold bind at 1. rewrite R2. unfold bind at 1. rewrite R3.
      cbv beta iota zeta.
      unfold bind at 1. unfold sleep at 1, emit at 1. cbv beta iota.
      unfold bind at 1. rewrite R4. reflexivity. }
    repeat split; [congruence | | |].
    - rewrite T4, T3, T2, T1. rewrite <- !app_assoc. reflexivity.
    - reflexivity.
    - reflexivity. }
  set (dport := atoi (frame (firstn buffer_len (next_read w2)))).
  set (cr := env_connect (env w4) (now w4)).
  assert (NR : next_read w1 = next_read w).
  { unfold next_read. now rewrite I1. }
  destruct (cr <? 0) eqn:EC.
  { left. do 2 eexists. split.
    { unfold main_loop_body. unfold bind at 1. rewrite R1.
      unfold bind at 1. rewrite R2. unfold bind at 1. rewrite R3.
      cbv beta iota zeta.
      unfold bind at 1. unfold sleep at 1, emit at 1. cbv beta iota.
      unfold bind at 1. rewrite R4.
      unfold bind at 1. unfold connect.
      unfold bind at 1. unfold ask at 1. cbv beta iota.
      unfold bind at 1. unfold clock at 1. cbv beta iota.
      unfold bind at 1. unfold emit at 1. cbv beta iota.
      unfold ret at 1. cbv beta iota.
      fold cr. rewrite EC.
      unfold bind at 1. unfold error at 1. cbv beta iota.
      reflexivity. }
    cbn [env log trace].
    repeat split; [congruence | | |].
    - rewrite T4, T3, T2, T1. rewrite <- !app_assoc. reflexivity.
    - reflexivity.
    - reflexivity. }
  right. apply Z.ltb_ge in EC.
  exists cfd, n1, n2, dfd, dport, cr. eexists.
  do 5 (split; [assumption|]). split.
  { unfold main_loop_body. unfold bind at 1. rewrite R1.
    unfold bind at 1. rewrite R2. unfold bind at 1. rewrite R3.
    cbv beta iota zeta.
    unfold bind at 1. unfold sleep at 1, emit at 1. cbv beta iota.
    unfold bind at 1. rewrite R4.
    unfold bind at 1. unfold connect.
    unfold bind at 1. unfold ask at 1. cbv beta iota.
    unfold bind at 1. unfold clock at 1. cbv beta iota.
    unfold bind at 1. unfold emit at 1. cbv beta iota.
    unfold ret at 1. cbv beta iota.
    fold cr. replace (cr <? 0) with false
      by (symmetry; now apply Z.ltb_ge).
    unfold bind at 1. unfold ret at 1. cbv beta iota.
    rewrite NR. fold dport. reflexivity. }
  cbn [env log trace]. split; [congruence|].
  rewrite T4, T3, T2, T1. rewrite <- !app_assoc. reflexivity.
Qed.

Lemma closes_app (a b : list event) : closes (a ++ b) = closes a ++ closes b.
Proof.
  induction a as [|e a IH]; [reflexivity|].
  destruct e; simpl; rewrite ?IH; reflexivity.
Qed.

Lemma dispatch_events (fd : Z) (evs : list event) :
  Forall (dispatch_event fd) evs -> writes_on fd evs /\ closes evs = [].
Proof.
  induction 1 as [|e evs He _ [IHw IHc]]; [split; [constructor | reflexivity]|].
  destruct e; simpl in He; try contradiction; split; trivial;
    constructor; trivial.
Qed.

(** X7.  In a turn of the loop nothing is written before the handshake is
    complete: when a turn writes at all, its events begin with the accept
    of the client, the two reads on the control connection, the pause, the
    opening of the data socket and the connect, all of which succeeded,
    and every write of the turn goes to that data socket. *)
Theorem turn_writes_after_handshake (fuel : nat) (listenSockFD : Z)
    (buffer : list byte) (w : World) :
  length buffer = buffer_len ->
  written (added w (snd (main_loop_body fuel listenSockFD buffer w))) <> [] ->
  exists cfd n1 n2 dfd dport cr post,
    0 <= cfd /\ 0 <= n1 /\ 0 <= n2 /\ 0 <= dfd /\ 0 <= cr /\
    added w (snd (main_loop_body fuel listenSockFD buffer w)) =
      [EvAccept listenSockFD cfd;
       EvPrintf (lit "Connection from client." ++ [LF]) [];
       EvRead cfd BUFFER_SIZE n1;
       EvRead cfd BUFFER_SIZE n2;
       EvSleep 1;
       EvSocket dfd;
       EvConnect dfd dport cr] ++ post /\
    writes_on dfd post.
Proof.
  intros Hb Hw.
  destruct (turn_cases fuel listenSockFD buffer w Hb)
    as [(w' & pre & E & _ & T & W & _)
       | (cfd & n1 & n2 & dfd & dport & cr & w1
          & A1 & A2 & A3 & A4 & A5 & E & _ & T)].
  - rewrite E in Hw. cbn [snd] in Hw. rewrite (added_app _ _ _ T) in Hw.
    contradiction.
  - destruct (dispatch_and_close fuel
                (frame (firstn buffer_len (next_read w))) dfd dport w1)
      as [evs [o [w' [F [R [_ [_ C]]]]]]].
    destruct (dispatch_events dfd evs F) as [Wo _].
    rewrite E, R. cbn [snd].
    exists cfd, n1, n2, dfd, dport, cr.
    destruct C as [[b [_ [_ T']]] | [_ [_ T']]].
    + exists (evs ++ [EvPrintf (lit "Closing data connection." ++ [LF]) [];
                      EvPrintf [LF; LF] []; EvClose dfd]).
      repeat split; trivial.
      * apply added_app. rewrite T', T. now rewrite <- app_assoc.
      * apply writes_on_app; [exact Wo | repeat constructor].
    + exists evs. repeat split; trivial.
      apply added_app. rewrite T', T. now rewrite <- app_assoc.
Qed.

Lemma turn_writes_after_handshake_witness :
  exists cfd n1 n2 dfd dport cr post,
    0 <= cfd /\ 0 <= n1 /\ 0 <= n2 /\ 0 <= dfd /\ 0 <= cr /\
    added (request_world sample_env (lit "notes.txt"))
      (snd (main_loop_body 5 3 (malloc BUFFER_SIZE)
              (request_world sample_env (lit "notes.txt")))) =
      [EvAccept 3 cfd;
       EvPrintf (lit "Connection from client." ++ [LF]) [];
       EvRead cfd BUFFER_SIZE n1;
       EvRead cfd BUFFER_SIZE n2;
       EvSleep 1;
       EvSocket dfd;
       EvConnect dfd dport cr] ++ post /\
    writes_on dfd post.
Proof.
  apply (turn_writes_after_handshake 5 3 (malloc BUFFER_SIZE)
           (request_world sample_env (lit "notes.txt"))).
  - reflexivity.
  - vm_compute. discriminate.
Defined.

(** X8.  A turn that returns closes one descriptor, once, as its last
    event, and it is the data socket the turn opened; a turn that does not
    return closes nothing.  The descriptor of the accepted control
    connection is never closed. *)
Theorem turn_closes_data_connection (fuel : nat) (listenSockFD : Z)
    (buffer : list byte) (w : World) :
  length buffer = buffer_len ->
  (forall b,
     fst (main_loop_body fuel listenSockFD buffer w) = Ret b ->
     exists dfd pre,
       added w (snd (main_loop_body fuel listenSockFD buffer w)) =
         pre ++ [EvClose dfd] /\
       closes pre = [] /\
       In (EvSocket dfd) pre) /\
  ((forall b, fst (main_loop_body fuel listenSockFD buffer w) <> Ret b) ->
   closes (added w (snd (main_loop_body fuel listenSockFD buffer w))) = []).
Proof.
  intro Hb.
  destruct (turn_cases fuel listenSockFD buffer w Hb)
    as [(w' & pre & E & _ & T & _ & C)
       | (cfd & n1 & n2 & dfd & dport & cr & w1
          & _ & _ & _ & _ & _ & E & _ & T)].
  - rewrite E. cbn [fst snd]. rewrite (added_app _ _ _ T).
    split; [discriminate | trivial].
  - destruct (dispatch_and_close fuel
                (frame (firstn buffer_len (next_read w))) dfd dport w1)
      as [evs [o [w' [F [R [_ [_ C]]]]]]].
    destruct (dispatch_events dfd evs F) as [_ Cl].
    rewrite E, R. cbn [fst snd].
    destruct C as [[b [_ [Ob T']]] | [Nb [_ T']]].
    + split; [|intro H; exfalso; now apply (H b)].
      intros b' _. exists dfd. eexists. split; [|split].
      * apply added_app. rewrite T', T.
        rewrite <- app_assoc.
        rewrite (app_assoc _ evs).
        change [EvPrintf (lit "Closing data connection." ++ [LF]) [];
                EvPrintf [LF; LF] []; EvClose dfd]
          with ([EvPrintf (lit "Closing data connection." ++ [LF]) [];
                 EvPrintf [LF; LF] []] ++ [EvClose dfd]).
        rewrite (app_assoc (_ ++ evs)). reflexivity.
      * rewrite !closes_app, Cl. reflexivity.
      * apply in_or_app. left. apply in_or_app. left.
        do 5 right. left. reflexivity.
    + split; [intros b H; exfalso; now apply (Nb b)|].
      intros _. erewrite added_app
        by (rewrite T', T; now rewrite <- app_assoc).
      rewrite closes_app, Cl. reflexivity.
Qed.

Lemma turn_closes_data_connection_witness :
  (forall b,
     fst (main_loop_body 5 3 (malloc BUFFER_SIZE)
            (request_world sample_env (lit "notes.txt"))) = Ret b ->
     exists dfd pre,
       added (request_world sample_env (lit "notes.txt"))
         (snd (main_loop_body 5 3 (malloc BUFFER_SIZE)
                 (request_world sample_env (lit "notes.txt")))) =
         pre ++ [EvClose dfd] /\
       closes pre = [] /\
       In (EvSocket dfd) pre) /\
  ((forall b,
      fst (main_loop_body 5 3 (malloc BUFFER_SIZE)
             (request_world sample_env (lit "notes.txt"))) <> Ret b) ->
   closes (added (request_world sample_env (lit "notes.txt"))
             (snd (main_loop_body 5 3 (malloc BUFFER_SIZE)
                     (request_world sample_env (lit "notes.txt"))))) = []).
Proof.
  apply (turn_closes_data_connection 5 3 (malloc BUFFER_SIZE)
           (request_world sample_env (lit "notes.txt"))).
  reflexivity.
Defined.

(** X9.  A turn in which the command and the data port arrive as
    terminated strings, and the command is not a listing request, stays
    within what C and the C library of the platform define, whatever else
    the environment answers; the buffer it returns for the next turn has
    500 bytes again. *)
Theorem turn_stays_defined (fuel : nat) (listenSockFD : Z)
    (buffer : list byte) (w : World) :
  length buffer = buffer_len ->
  terminated (received (next_read w)) = true ->
  firstn 2 (received (next_read w)) <> lit "-l" ->
  terminated (received (following_read w)) = true ->
  fst (main_loop_body fuel listenSockFD buffer w) <> Undefined /\
  (forall b, fst (main_loop_body fuel listenSockFD buffer w) = Ret b ->
             length b = buffer_len).
Proof.
  intros Hb RT NL _. unfold received in RT, NL.
  destruct (turn_cases fuel listenSockFD buffer w Hb)
    as [(w' & pre & E & _)
       | (cfd & n1 & n2 & dfd & dport & cr & w1
          & _ & _ & _ & _ & _ & E & E1 & _)].
  - rewrite E. cbn [fst]. split; congruence.
  - assert (RL : length (frame (firstn buffer_len (next_read w))) =
                 buffer_len).
    { apply frame_length. apply firstn_le_length. }
    destruct (dispatch_and_close fuel
                (frame (firstn buffer_len (next_read w))) dfd dport w1)
      as [evs [o [w' [_ [R [_ [_ C]]]]]]].
    pose proof (safe_handleRequest (env w) fuel
                  (frame (firstn buffer_len (next_read w))) dfd dport
                  RL NL (or_intror RT) w1 E1) as S.
    rewrite E, R. cbn [fst].
    destruct (handleRequest fuel (frame (firstn buffer_len (next_read w)))
                dfd dport w1) as [[b|s| |] w2]; cbn [fst] in C;
      try contradiction;
      destruct C as [[b' [Hb' [-> _]]] | [_ [-> _]]];
      split; try discriminate.
    + intros b0 H0. injection H0 as <-. injection Hb' as <-. tauto.
    + intros b0 H0. injection H0 as <-. tauto.
Qed.

Lemma turn_stays_defined_witness :
  fst (main_loop_body 5 3 (malloc BUFFER_SIZE)
         (request_world sample_env (lit "notes.txt"))) <> Undefined /\
  (forall b,
     fst (main_loop_body 5 3 (malloc BUFFER_SIZE)
            (request_world sample_env (lit "notes.txt"))) = Ret b ->
     length b = buffer_len).
Proof.
  apply (turn_stays_defined 5 3 (malloc BUFFER_SIZE)
           (request_world sample_env (lit "notes.txt"))).
  - reflexivity.
  - reflexivity.
  - vm_compute. discriminate.
  - reflexivity.
Defined.

(** ** The start of the process *)

(** X10.  [main] reaches its loop exactly when it is given a port
    argument whose [atoi] value lies in 4000..65000 and both [socket] and
    [bind] succeed.  The value is the one [atoi] returns, an [int]: the
    argument "4294971296" is port 4000.  Then the socket is bound to that
    very port (16 bits hold it unchanged) and the server announces that it
    listens, whatever [listen] answered; in every other case the process
    exits with status 1. *)
Theorem main_boot_serves_iff (argv : list (list byte)) (b : BootEnv) :
  let port := atoi (nth 1 argv []) in
  let ok := (2 <= length argv)%nat /\ 4000 <= port <= 65000 /\
            0 <= boot_socket b /\ 0 <= boot_bind b in
  (ok ->
   main_boot argv b =
     (Ret (port, boot_socket b),
      [BtSocket (boot_socket b);
       BtBind (boot_socket b) port (boot_bind b);
       BtListen (boot_socket b) 5 (boot_listen b);
       BtPrintf (lit "Server open and listening on port %i." ++ [LF])
         [ArgInt port]])) /\
  (~ ok -> fst (main_boot argv b) = Exit 1).
Proof.
  intros port ok. unfold main_boot. fold port.
  destruct (Z.of_nat (length argv) <? 2) eqn:E1.
  { apply Z.ltb_lt in E1. split; [intros [H _]; lia | reflexivity]. }
  apply Z.ltb_ge in E1.
  destruct ((port <? 4000) || (port >? 65000)) eqn:E2.
  { split; [|reflexivity]. intros [_ [H _]].
    apply orb_true_iff in E2. destruct E2 as [E2|E2].
    - apply Z.ltb_lt in E2. lia.
    - apply Z.gtb_lt in E2. lia. }
  apply orb_false_iff in E2. destruct E2 as [E2 E3].
  apply Z.ltb_ge in E2. rewrite Z.gtb_ltb in E3. apply Z.ltb_ge in E3.
  unfold createSocket_boot, startUp, boot_then, boot_error.
  destruct (boot_socket b <? 0) eqn:E4.
  { apply Z.ltb_lt in E4. split; [intros [_ [_ [H _]]]; lia | reflexivity]. }
  apply Z.ltb_ge in E4.
  destruct (boot_bind b <? 0) eqn:E5.
  { apply Z.ltb_lt in E5. split; [intros [_ [_ [_ H]]]; lia | reflexivity]. }
  apply Z.ltb_ge in E5.
  split; [intros _ | intro H; exfalso; apply H; unfold ok; lia].
  unfold htons_port. rewrite Z.mod_small by lia. reflexivity.
Qed.

Lemma main_boot_serves_iff_witness :
  main_boot [lit "./ftserver"; lit "4294971296"]
    {| boot_socket := 3; boot_bind := 0; boot_listen := -1 |} =
  (Ret (4000, 3),
   [BtSocket 3; BtBind 3 4000 0; BtListen 3 5 (-1);
    BtPrintf (lit "Server open and listening on port %i." ++ [LF])
      [ArgInt 4000]]).
Proof.
  apply (main_boot_serves_iff [lit "./ftserver"; lit "4294971296"]
           {| boot_socket := 3; boot_bind := 0; boot_listen := -1 |}).
  repeat split; try (vm_compute; discriminate). simpl. lia.
Defined.

(** X11.  [main] never binds a port it has not checked: a [bind] in the
    trace of the start is on the descriptor [socket] returned, and its
    port is the value of the argument, between 4000 and 65000. *)
Theorem main_boot_binds_checked_port (argv : list (list byte)) (b : BootEnv)
    (fd port r : Z) :
  In (BtBind fd port r) (snd (main_boot argv b)) ->
  port = atoi (nth 1 argv []) /\ 4000 <= port <= 65000 /\
  fd = boot_socket b /\ 0 <= fd /\ (2 <= length argv)%nat.
Proof.
  unfold main_boot.
  destruct (Z.of_nat (length argv) <? 2) eqn:E1.
  { simpl. intuition discriminate. }
  apply Z.ltb_ge in E1.
  destruct ((atoi (nth 1 argv []) <? 4000) || (atoi (nth 1 argv []) >? 65000))
    eqn:E2.
  { simpl. intuition discriminate. }
  apply orb_false_iff in E2. destruct E2 as [E2 E3].
  apply Z.ltb_ge in E2. rewrite Z.gtb_ltb in E3. apply Z.ltb_ge in E3.
  unfold createSocket_boot, startUp, boot_then, boot_error.
  destruct (boot_socket b <? 0) eqn:E4.
  { simpl. intuition discriminate. }
  apply Z.ltb_ge in E4.
  unfold htons_port. rewrite Z.mod_small by lia.
  destruct (boot_bind b <? 0); simpl; intro H;
    repeat (destruct H as [H|H];
            [try discriminate;
             try (injection H as <- <- <-; repeat split; lia) | ]);
    contradiction.
Qed.

Lemma main_boot_binds_checked_port_witness :
  4242 = atoi (nth 1 [lit "./ftserver"; lit "4242"] []) /\
  4000 <= 4242 <= 65000 /\
  3 = boot_socket {| boot_socket := 3; boot_bind := 0; boot_listen := 0 |} /\
  0 <= 3 /\ (2 <= length [lit "./ftserver"; lit "4242"])%nat.
Proof.
  apply (main_boot_binds_checked_port [lit "./ftserver"; lit "4242"]
           {| boot_socket := 3; boot_bind := 0; boot_listen := 0 |}
           3 4242 0).
  vm_compute. right. left. reflexivity.
Defined.

(** ** The chunk loop, whatever the transport answers *)

Lemma sendFile_loop_prefix (fd : Z) (fuel : nat) :
  forall (file : FILE) (buffer : list byte) (w : World),
    (forall k, f_faults file k = false) ->
    (f_eof file = true -> f_rest file = []) ->
    exists o w' evs tail,
      sendFile_loop fuel file buffer fd w = (o, w') /\
      trace w' = trace w ++ evs /\
      concat (written evs) ++ tail = f_rest file /\
      Forall (fun c => (length c <= 500)%nat) (written evs) /\
      (o = Ret tt -> tail = []).
Proof.
  induction fuel as [|fuel IH]; intros file buffer w Hf He.
  { exists OutOfFuel, w, [], (f_rest file). simpl. rewrite app_nil_r.
    repeat split; [constructor | discriminate]. }
  cbn [sendFile_loop]. unfold feof.
  destruct (f_eof file) eqn:Eof; cbn [negb].
  { exists (Ret tt), w, [], []. simpl. rewrite app_nil_r.
    repeat split; [now rewrite He | constructor]. }
  rewrite fread_ok by apply Hf. rewrite Eof.
  unfold bind at 1. rewrite write_chunk. cbv beta iota.
  set (got := firstn 500 (f_rest file)).
  set (r := env_write (env w) (now w) (Z.of_nat (length got))).
  assert (Lg : (length got <= 500)%nat) by apply firstn_le_length.
  destruct (r <? 0).
  { exists (Exit 1). eexists. eexists. exists (skipn 500 (f_rest file)).
    split; [reflexivity|]. unfold error, log. cbn [trace].
    rewrite <- app_assoc. split; [reflexivity|].
    cbn [app written concat]. rewrite app_nil_r.
    repeat split;
      [apply firstn_skipn | constructor; [exact Lg | constructor]
      | discriminate]. }
  destruct (IH {| f_rest := skipn 500 (f_rest file);
                  f_eof := false || (length got <? 500)%nat;
                  f_err := f_err file;
                  f_calls := S (f_calls file);
                  f_faults := f_faults file |}
               (got ++ skipn (length got) buffer)
               (log (EvWrite fd got r) w))
    as [o [w' [evs [tail [E [T [C [F R]]]]]]]].
  { exact Hf. }
  { cbn [f_eof f_rest orb]. intro H. apply Nat.ltb_lt in H.
    apply length_zero_iff_nil. rewrite length_skipn.
    unfold got in H. rewrite length_firstn in H. lia. }
  exists o, w', (EvWrite fd got r :: evs), tail.
  cbn [f_rest] in C. split; [exact E|].
  split; [rewrite T; cbn [log trace]; now rewrite <- app_assoc|].
  cbn [written concat]. rewrite <- app_assoc, C.
  repeat split; [apply firstn_skipn | now constructor | exact R].
Qed.

(** X13.  Whatever the transport answers and however long the loop runs,
    when no read fails the buffers the chunk loop hands to [write] are, in
    order and in pieces of at most 500 bytes, a prefix of the bytes of the
    file, and the whole file when the loop returns. *)
Theorem chunks_are_a_prefix (fd : Z) (fuel : nat)
    (content buffer : list byte) (faults : nat -> bool) (w : World) :
  (forall k, faults k = false) ->
  exists tail,
    concat (written
              (added w (snd (sendFile_loop fuel (fresh_file content faults)
                               buffer fd w)))) ++ tail = content /\
    Forall (fun c => (length c <= 500)%nat)
      (written (added w (snd (sendFile_loop fuel (fresh_file content faults)
                                buffer fd w)))) /\
    (fst (sendFile_loop fuel (fresh_file content faults) buffer fd w) = Ret tt
     -> tail = []).
Proof.
  intro Hf.
  destruct (sendFile_loop_prefix fd fuel (fresh_file content faults) buffer w)
    as [o [w' [evs [tail [E [T [C [F R]]]]]]]]; trivial.
  { discriminate. }
  exists tail. rewrite E. cbn [fst snd]. rewrite (added_app _ _ _ T).
  now repeat split.
Qed.

Lemma chunks_are_a_prefix_witness :
  exists tail,
    concat (written
              (added (serving_world short_write_env)
                 (snd (sendFile_loop 1
                         (fresh_file (lit "hello" ++ [LF]) (fun _ => false))
                         (malloc BUFFER_SIZE) 5
                         (serving_world short_write_env))))) ++ tail
      = lit "hello" ++ [LF] /\
    Forall (fun c => (length c <= 500)%nat)
      (written
         (added (serving_world short_write_env)
            (snd (sendFile_loop 1
                    (fresh_file (lit "hello" ++ [LF]) (fun _ => false))
                    (malloc BUFFER_SIZE) 5
                    (serving_world short_write_env))))) /\
    (fst (sendFile_loop 1
            (fresh_file (lit "hello" ++ [LF]) (fun _ => false))
            (malloc BUFFER_SIZE) 5 (serving_world short_write_env)) = Ret tt
     -> tail = []).
Proof.
  apply (chunks_are_a_prefix 5 1 (lit "hello" ++ [LF]) (malloc BUFFER_SIZE)
           (fun _ => false) (serving_world short_write_env)).
  intro k. reflexivity.
Defined.

Lemma sendFile_loop_chunks (fd : Z) (fuel : nat) :
  forall (file : FILE) (buffer : list byte) (w : World),
    f_eof file = false ->
    (forall k, f_faults file k = false) ->
    full_writes (env w) ->
    (length (f_rest file) < 500 * (fuel - 1))%nat ->
    exists w' chunks,
      sendFile_loop fuel file buffer fd w = (Ret tt, w') /\
      trace w' =
        trace w ++ map (fun c => EvWrite fd c (Z.of_nat (length c))) chunks /\
      length chunks = S (length (f_rest file) / 500) /\
      Forall (fun c => length c = 500%nat) (removelast chunks) /\
      length (last chunks []) = (length (f_rest file) mod 500)%nat.
Proof.
  induction fuel as [|fuel IH]; intros file buffer w He Hf Hw Hl; [lia|].
  cbn [sendFile_loop]. unfold feof. rewrite He. cbn [negb].
  rewrite fread_ok by apply Hf.
  unfold bind at 1. rewrite write_chunk. rewrite Hw by lia.
  set (got := firstn 500 (f_rest file)).
  replace (Z.of_nat (length got) <? 0) with false
    by (symmetry; apply Z.ltb_ge; lia).
  assert (Lg : length got = Nat.min 500 (length (f_rest file)))
    by apply length_firstn.
  assert (Rs : length (skipn 500 (f_rest file)) = (length (f_rest file) - 500)%nat)
    by apply length_skipn.
  destruct (length got <? 500)%nat eqn:Es.
  - apply Nat.ltb_lt in Es.
    destruct fuel as [|fuel]; [lia|].
    cbn [sendFile_loop feof f_eof orb negb]. rewrite He. cbn [orb negb].
    eexists. exists [got]. cbn [map removelast last length].
    repeat split.
    + rewrite Nat.div_small by lia. reflexivity.
    + constructor.
    + rewrite Nat.mod_small by lia. lia.
  - apply Nat.ltb_ge in Es.
    set (w1 := log (EvWrite fd got (Z.of_nat (length got))) w).
    destruct (IH {| f_rest := skipn 500 (f_rest file);
                    f_eof := f_eof file || false;
                    f_err := f_err file;
                    f_calls := S (f_calls file);
                    f_faults := f_faults file |}
                 (got ++ skipn (length got) buffer) w1)
      as [w' [chunks [E [T [N [F L]]]]]].
    + cbn [f_eof]. now rewrite He.
    + exact Hf.
    + exact Hw.
    + cbn [f_rest]. lia.
    + cbn [f_rest] in *. rewrite Rs in N, L.
      assert (D : (length (f_rest file) / 500 =
                   S ((length (f_rest file) - 500) / 500))%nat).
      { replace (length (f_rest file))
          with (1 * 500 + (length (f_rest file) - 500))%nat at 1 by lia.
        rewrite Nat.div_add_l by discriminate. reflexivity. }
      assert (Md : (length (f_rest file) mod 500 =
                    (length (f_rest file) - 500) mod 500)%nat).
      { replace (length (f_rest file))
          with ((length (f_rest file) - 500) + 1 * 500)%nat at 1 by lia.
        apply Nat.Div0.mod_add. }
      destruct chunks as [|c cs]; [discriminate|].
      exists w', (got :: c :: cs). repeat split.
      * exact E.
      * rewrite T. unfold w1, log. cbn [trace map].
        now rewrite <- app_assoc.
      * cbn [length] in *. lia.
      * change (removelast (got :: c :: cs))
          with (got :: removelast (c :: cs)).
        constructor; [lia | exact F].
      * change (last (got :: c :: cs) []) with (last (c :: cs) []).
        congruence.
Qed.

(** X14.  When no read fails, the transport takes every byte and the fuel
    suffices, the chunk loop returns after exactly one write more than the
    file has full blocks of 500 bytes: every write but the last carries
    500 bytes and the last the remainder, so that a file whose length is a
    multiple of 500, the empty file among them, ends with a write of no
    bytes. *)
Theorem chunk_sizes (fd : Z) (fuel : nat)
    (content buffer : list byte) (faults : nat -> bool) (w : World) :
  (forall k, faults k = false) ->
  full_writes (env w) ->
  (length content < 500 * (fuel - 1))%nat ->
  let chunks :=
    written (added w (snd (sendFile_loop fuel (fresh_file content faults)
                             buffer fd w))) in
  fst (sendFile_loop fuel (fresh_file content faults) buffer fd w) = Ret tt /\
  length chunks = S (length content / 500) /\
  Forall (fun c => length c = 500%nat) (removelast chunks) /\
  length (last chunks []) = (length content mod 500)%nat.
Proof.
  intros Hf Hw Hl.
  destruct (sendFile_loop_chunks fd fuel (fresh_file content faults) buffer w)
    as [w' [chunks [E [T [N [F L]]]]]]; trivial.
  cbv zeta. rewrite E. cbn [fst snd]. rewrite (added_app _ _ _ T).
  assert (W : written (map (fun c => EvWrite fd c (Z.of_nat (length c)))
                         chunks) = chunks).
  { clear. induction chunks as [|c cs IH]; simpl; [reflexivity|].
    now rewrite IH. }
  rewrite W. cbn [fresh_file f_rest] in *. now repeat split.
Qed.

Lemma chunk_sizes_witness :
  let chunks :=
    written (added (serving_world sample_env)
               (snd (sendFile_loop 5 (fresh_file [] (fun _ => false))
                       (malloc BUFFER_SIZE) 5 (serving_world sample_env)))) in
  fst (sendFile_loop 5 (fresh_file [] (fun _ => false))
         (malloc BUFFER_SIZE) 5 (serving_world sample_env)) = Ret tt /\
  length chunks = S (length (@nil byte) / 500) /\
  Forall (fun c => length c = 500%nat) (removelast chunks) /\
  length (last chunks []) = (length (@nil byte) mod 500)%nat.
Proof.
  apply (chunk_sizes 5 5 [] (malloc BUFFER_SIZE) (fun _ => false)
           (serving_world sample_env)).
  - intro k. reflexivity.
  - intros t count H. reflexivity.
  - vm_compute. lia.
Defined.

(** ** A refused write *)

Lemma stops_silent {A : Type} (o : outcome A) :
  stops_at_failed_write (fun w => (o, w)).
Proof.
  intro w. exists []. simpl. rewrite app_nil_r. split; [reflexivity|].
  left. constructor.
Qed.

Lemma stops_emit (ev : event) :
  write_taken ev -> stops_at_failed_write (emit ev).
Proof.
  intros H w. exists [ev]. simpl. split; [reflexivity|].
  left. now constructor.
Qed.

Lemma stops_error {A : Type} (msg : list byte) :
  stops_at_failed_write (@error A msg).
Proof.
  intro w. exists [EvPerror msg]. simpl. split; [reflexivity|].
  left. now constructor.
Qed.

Lemma stops_bind {A B : Type} (m : M A) (k : A -> M B) :
  stops_at_failed_write m -> (forall a, stops_at_failed_write (k a)) ->
  stops_at_failed_write (bind m k).
Proof.
  intros Hm Hk w. unfold bind.
  destruct (Hm w) as [e1 [T1 C1]].
  destruct (m w) as [[a|s| |] w1]; cbn [fst snd] in *.
  2-4: (exists e1; split; [exact T1|];
        destruct C1 as [C1|[X1 C1]]; [now left | right; split; trivial];
        congruence).
  destruct C1 as [C1|[X1 _]]; [|discriminate].
  destruct (Hk a w1) as [e2 [T2 C2]].
  exists (e1 ++ e2). split; [rewrite T2, T1; now rewrite app_assoc|].
  destruct C2 as [C2|[X2 [pre [fd [data [r [msg [E2 [R2 F2]]]]]]]]].
  - left. apply Forall_app. now split.
  - right. split; [exact X2|].
    exists (e1 ++ pre), fd, data, r, msg. subst e2.
    rewrite app_assoc. repeat split; trivial.
    apply Forall_app. now split.
Qed.

(** A write whose result is tested, as [sendMsg] and the chunk loop do. *)
Lemma stops_checked_write {A : Type} (fd : Z) (buf : list byte) (count : Z)
    (msg : list byte) (k : M A) :
  stops_at_failed_write k ->
  stops_at_failed_write
    (success <- write fd buf count ;;
     if success <? 0 then error msg else k).
Proof.
  intros Hk w. unfold bind at 1. unfold write.
  destruct (Z.of_nat (length buf) <? count).
  { exists []. simpl. rewrite app_nil_r. split; [reflexivity|].
    left. constructor. }
  unfold bind, ask, clock, emit, ret. cbv beta iota.
  set (r := env_write (env w) (now w) count).
  set (ev := EvWrite fd (firstn (Z.to_nat count) buf) r).
  destruct (r <? 0) eqn:E.
  - apply Z.ltb_lt in E. exists [ev; EvPerror msg].
    unfold error, log. cbn [fst snd trace]. rewrite <- app_assoc.
    split; [reflexivity|]. right. split; [reflexivity|].
    exists [], fd, (firstn (Z.to_nat count) buf), r, msg.
    repeat split; trivial.
  - apply Z.ltb_ge in E.
    destruct (Hk (log ev w)) as [e2 [T2 C2]].
    exists (ev :: e2). split.
    { rewrite T2. cbn [log trace]. now rewrite <- app_assoc. }
    destruct C2 as [C2|[X2 [pre [fd' [data [r' [msg' [E2 [R2 F2]]]]]]]]].
    + left. constructor; [exact E | exact C2].
    + right. split; [exact X2|].
      exists (ev :: pre), fd', data, r', msg'. subst e2.
      repeat split; trivial. constructor; [exact E | exact F2].
Qed.

Lemma stops_sendMsg (fd : Z) (buffer msg : list byte) :
  stops_at_failed_write (sendMsg fd buffer msg).
Proof.
  unfold sendMsg. apply stops_bind.
  { unfold bzero. destruct (_ <? _); apply stops_silent. }
  intro b1. apply stops_bind.
  { unfold strcpy. destruct (_ <=? _)%nat; apply stops_silent. }
  intro b2. apply stops_checked_write. apply stops_silent.
Qed.

Lemma stops_sendDir (fd portNum : Z) :
  stops_at_failed_write (sendDir fd portNum).
Proof.
  unfold sendDir. apply stops_bind.
  { intro w. apply (stops_silent (Ret (env w))). }
  intro e. destruct (env_dir e) as [entries|]; [|apply stops_silent].
  apply stops_bind; [now apply stops_emit | intros _].
  apply stops_bind.
  - generalize (malloc BUFFER_SIZE).
    induction entries as [|d entries IH]; intro buffer; simpl.
    + apply stops_silent.
    + apply stops_bind; [apply stops_sendMsg | exact IH].
  - intro b. apply stops_bind; [apply stops_sendMsg | intros _].
    apply stops_silent.
Qed.

Lemma stops_sendFile (fd portNum : Z) (fuel : nat) (fileName : list byte) :
  stops_at_failed_write (sendFile fuel fileName fd portNum).
Proof.
  unfold sendFile. apply stops_bind.
  { unfold fopen. apply stops_bind.
    - intro w. apply (stops_silent (Ret (env w))).
    - intro e. destruct (env_fopen e (until_nul fileName)) as [[c f]|];
        apply stops_silent. }
  intros [file|]; [|apply stops_error].
  apply stops_bind.
  { unfold string_arg. destruct (terminated fileName); apply stops_silent. }
  intro name. apply stops_bind; [now apply stops_emit | intros _].
  generalize (malloc BUFFER_SIZE). revert file.
  induction fuel as [|fuel IH]; intros file buffer; simpl.
  - apply stops_silent.
  - destruct (negb (feof file)); [|apply stops_silent].
    destruct (fread buffer 500 file) as [[n b] f].
    apply stops_checked_write. apply IH.
Qed.

Lemma stops_handleRequest (fuel : nat) (buffer : list byte)
    (fd portNum : Z) :
  stops_at_failed_write (handleRequest fuel buffer fd portNum).
Proof.
  unfold handleRequest.
  destruct (strncmp buffer (lit "-l") 2 =? 0).
  { apply stops_bind; [now apply stops_emit | intros _].
    apply stops_bind; [apply stops_sendMsg | intro b].
    apply stops_bind; [apply stops_sendDir | intros _].
    apply stops_silent. }
  destruct (negb (strncmp buffer (lit "%none") 5 =? 0));
    [|apply stops_sendMsg].
  apply stops_bind.
  { unfold string_arg. destruct (terminated buffer); apply stops_silent. }
  intro name. apply stops_bind; [now apply stops_emit | intros _].
  apply stops_bind.
  { intro w. rewrite inDir_run.
    apply (stops_silent (Ret (dir_lookup (env w) buffer))). }
  intro found. destruct (negb (found =? 0)).
  - apply stops_bind.
    { unfold strcpy. destruct (_ <=? _)%nat; apply stops_silent. }
    intro fileName.
    apply stops_bind; [apply stops_sendMsg | intro b].
    apply stops_bind; [apply stops_sendFile | intros _].
    apply stops_silent.
  - apply stops_bind; [now apply stops_emit | intros _].
    apply stops_sendMsg.
Qed.

(** X15.  In the dispatcher a refused write is fatal wherever it happens,
    on a tag, on a line of the listing or on a chunk of a file: when a
    [write] answers with a negative number the process exits with status
    1, and that write and its diagnostic are the last two events; no write
    before it was refused. *)
Theorem refused_write_is_fatal (fuel : nat) (buffer data : list byte)
    (fd portNum fd' r : Z) (w : World) :
  In (EvWrite fd' data r)
    (added w (snd (handleRequest fuel buffer fd portNum w))) ->
  r < 0 ->
  fst (handleRequest fuel buffer fd portNum w) = Exit 1 /\
  exists pre msg,
    added w (snd (handleRequest fuel buffer fd portNum w)) =
      pre ++ [EvWrite fd' data r; EvPerror msg] /\
    Forall write_taken pre.
Proof.
  intros Hin Hr.
  destruct (stops_handleRequest fuel buffer fd portNum w) as [evs [T C]].
  rewrite (added_app _ _ _ T) in *.
  destruct C as [C|[X [pre [fd2 [d2 [r2 [msg [E [R F]]]]]]]]].
  - exfalso. rewrite Forall_forall in C. specialize (C _ Hin).
    simpl in C. lia.
  - split; [exact X|]. exists pre, msg. split; [|exact F].
    subst evs. apply in_app_or in Hin. destruct Hin as [Hin|Hin].
    + exfalso. rewrite Forall_forall in F. specialize (F _ Hin).
      simpl in F. lia.
    + destruct Hin as [H|[H|[]]]; [|discriminate].
      now injection H as -> -> ->.
Qed.

Lemma refused_write_is_fatal_witness :
  fst (handleRequest 5 (frame (lit "notes.txt")) 5 51000
         (serving_world broken_pipe_env)) = Exit 1 /\
  exists pre msg,
    added (serving_world broken_pipe_env)
      (snd (handleRequest 5 (frame (lit "notes.txt")) 5 51000
              (serving_world broken_pipe_env))) =
      pre ++ [EvWrite 5 (frame TAG_FIL) (-1); EvPerror msg] /\
    Forall write_taken pre.
Proof.
  apply (refused_write_is_fatal 5 (frame (lit "notes.txt")) (frame TAG_FIL)
           5 51000 5 (-1) (serving_world broken_pipe_env)).
  - vm_compute. right. left. reflexivity.
  - lia.
Defined.

(** ** A listed file that does not open *)

(** X16.  The directory lists a name but the file does not open (no
    permission, or removed since the test): the file-follows tag has
    already been written when [fopen] fails, and the process then exits
    with status 1 and the diagnostic "Can't open file."; nothing is
    written after the tag. *)
Theorem listed_file_does_not_open (fuel : nat) (buffer : list byte)
    (fd portNum : Z) (w : World) :
  length buffer = buffer_len ->
  terminated buffer = true ->
  firstn 2 buffer <> lit "-l" ->
  firstn 5 buffer <> lit "%none" ->
  In (until_nul buffer) (dir_names (env w)) ->
  env_fopen (env w) (until_nul buffer) = None ->
  no_write_error (env w) ->
  fst (handleRequest fuel buffer fd portNum w) = Exit 1 /\
  written (added w (snd (handleRequest fuel buffer fd portNum w))) =
    [frame TAG_FIL] /\
  last (added w (snd (handleRequest fuel buffer fd portNum w))) (EvSleep 0) =
    EvPerror (lit "Can't open file." ++ [LF]).
Proof.
  intros Hb ET NL NN Hin Hfo Hw.
  assert (SL : (length (until_nul buffer) < buffer_len)%nat).
  { rewrite <- Hb. now apply until_nul_terminated_length. }
  destruct tags_no_nul as [_ [Nf _]].
  assert (E : exists w' r,
             handleRequest fuel buffer fd portNum w = (Exit 1, w') /\
             trace w' = trace w ++
               [EvPrintf (lit "File " ++ [DQUOTE] ++ lit "%s" ++ [DQUOTE]
                            ++ lit " requested on port %i." ++ [LF])
                  [ArgStr (until_nul buffer); ArgInt portNum];
                EvWrite fd (frame TAG_FIL) r;
                EvPerror (lit "Can't open file." ++ [LF])]).
  { unfold handleRequest.
    rewrite not_listing, not_sentinel by assumption. cbn [negb].
    unfold string_arg. rewrite ET.
    step_ret. step_printf.
    unfold bind at 1. rewrite inDir_run. cbv beta iota.
    cbn [env log].
    rewrite (proj1 (dir_lookup_spec (env w) buffer) Hin).
    change (negb (1 =? 0)) with true. cbv iota.
    unfold bind at 1. unfold malloc at 1.
    change (Z.to_nat BUFFER_SIZE) with buffer_len.
    rewrite strcpy_zeros by exact SL. cbv beta iota.
    unfold bind at 1.
    match goal with |- context [sendMsg fd buffer ?m ?w0] =>
      destruct (sendMsg_events fd buffer m w0 Hb Nf)
        as [r [w1 [E [Hr [E1 [I1 T1]]]]]];
        [rewrite buffer_len_eq; simpl; lia|]
    end.
    fold TAG_FIL. fold TAG_FIL in E. rewrite E.
    cbn [env log] in Hr, E1.
    assert (R : (r <? 0) = false) by (subst r; now apply no_write_error_ltb).
    rewrite R in *. cbv beta iota.
    unfold bind at 1. unfold sendFile.
    unfold bind at 1. unfold fopen. step_ask.
    rewrite frame_until_nul by (try apply until_nul_no_nul; exact SL).
    rewrite E1, Hfo. unfold ret at 1. cbv beta iota.
    unfold error. eexists. exists r. split; [reflexivity|].
    cbn [log trace]. rewrite T1. cbn [log trace].
    now rewrite <- !app_assoc. }
  destruct E as [w' [r [E T]]].
  rewrite E. cbn [fst snd]. rewrite (added_app _ _ _ T).
  repeat split.
Qed.

Lemma listed_file_does_not_open_witness :
  fst (handleRequest 5 (frame (lit "notes.txt")) 5 51000
         (serving_world unreadable_env)) = Exit 1 /\
  written (added (serving_world unreadable_env)
             (snd (handleRequest 5 (frame (lit "notes.txt")) 5 51000
                     (serving_world unreadable_env)))) =
    [frame TAG_FIL] /\
  last (added (serving_world unreadable_env)
          (snd (handleRequest 5 (frame (lit "notes.txt")) 5 51000
                  (serving_world unreadable_env)))) (EvSleep 0) =
    EvPerror (lit "Can't open file." ++ [LF]).
Proof.
  apply (listed_file_does_not_open 5 (frame (lit "notes.txt")) 5 51000
           (serving_world unreadable_env)).
  - reflexivity.
  - reflexivity.
  - vm_compute. discriminate.
  - vm_compute. discriminate.
  - vm_compute. tauto.
  - reflexivity.
  - intros t count H. exact H.
Defined.

(** ** The listing, whatever the transport answers *)

Lemma sendDir_loop_prefix (fd : Z) (entries : list (list byte)) :
  forall (buffer : list byte) (w : World),
    length buffer = buffer_len ->
    Forall (fun d => (S (length (until_nul d)) < buffer_len)%nat) entries ->
    exists o w' evs tail,
      sendDir_loop fd buffer entries w = (o, w') /\
      env w' = env w /\
      trace w' = trace w ++ evs /\
      written evs ++ tail = map (fun d => frame (entry_line d)) entries /\
      ((exists b, o = Ret b /\ length b = buffer_len /\ tail = [])
       \/ o = Exit 1).
Proof.
  induction entries as [|d entries IH]; intros buffer w Hb Hs.
  { exists (Ret buffer), w, [], []. simpl. rewrite app_nil_r.
    repeat split. left. now exists buffer. }
  inversion Hs as [|? ? Hd Hs']; subst.
  cbn [sendDir_loop]. unfold bind at 1.
  destruct (sendMsg_events fd buffer (entry_line d) w Hb)
    as [r [w1 [E [_ [E1 [_ T1]]]]]].
  { apply entry_line_no_nul. }
  { now rewrite entry_line_length. }
  fold (entry_line d). rewrite E.
  destruct (r <? 0).
  { exists (Exit 1), w1. eexists.
    exists (map (fun d => frame (entry_line d)) entries).
    repeat split; [exact E1 | exact T1 | reflexivity | now right]. }
  destruct (IH (frame (entry_line d)) w1)
    as [o [w' [evs [tail [E2 [Ee [T2 [W2 O2]]]]]]]].
  { apply frame_length. rewrite entry_line_length. lia. }
  { exact Hs'. }
  exists o, w', (EvWrite fd (frame (entry_line d)) r :: evs), tail.
  repeat split; trivial.
  - congruence.
  - rewrite T2, T1. now rewrite <- app_assoc.
  - cbn [written map app]. now rewrite W2.
Qed.

(** X17.  Whatever the transport answers, the buffers a listing request
    writes are, in order, a beginning of: the frame of the tag, the frame
    of each entry name with its newline, the frame of "~done".  So the
    line "~done" is written only after every entry has been written, and
    when the dispatcher returns all of them were. *)
Theorem listing_is_a_prefix (fuel : nat) (buffer : list byte)
    (fd portNum : Z) (w : World) (entries : list (list byte)) :
  length buffer = buffer_len ->
  firstn 2 buffer = lit "-l" ->
  env_dir (env w) = Some entries ->
  Forall (fun d => (S (length (until_nul d)) < buffer_len)%nat) entries ->
  exists tail,
    written (added w (snd (handleRequest fuel buffer fd portNum w))) ++ tail =
      frame TAG_DIR
        :: map (fun name => frame (name ++ [LF])) (dir_names (env w))
        ++ [frame DONE] /\
    (forall b, fst (handleRequest fuel buffer fd portNum w) = Ret b ->
               tail = []).
Proof.
  intros Hb HL Hd Hs.
  destruct tags_no_nul as [Nd [_ [_ [_ Ndone]]]].
  assert (Names : map (fun name => frame (name ++ [LF])) (dir_names (env w))
                  = map (fun d => frame (entry_line d)) entries).
  { unfold dir_names. rewrite Hd, map_map. reflexivity. }
  rewrite Names.
  assert (E : exists o w' evs tail,
             handleRequest fuel buffer fd portNum w = (o, w') /\
             trace w' = trace w ++ evs /\
             written evs ++ tail =
               frame TAG_DIR :: map (fun d => frame (entry_line d)) entries
                 ++ [frame DONE] /\
             (forall b, o = Ret b -> tail = [])).
  { unfold handleRequest.
    rewrite (proj2 (is_listing_iff buffer) HL).
    step_printf. unfold bind at 1.
    match goal with |- context [sendMsg fd buffer ?m ?w0] =>
      destruct (sendMsg_events fd buffer m w0 Hb Nd)
        as [r [w1 [E [_ [E1 [_ T1]]]]]];
        [rewrite buffer_len_eq; simpl; lia|]
    end.
    fold TAG_DIR. fold TAG_DIR in E. rewrite E.
    cbn [env log trace] in E1, T1.
    destruct (r <? 0).
    { do 3 eexists.
      exists (map (fun d => frame (entry_line d)) entries ++ [frame DONE]).
      split; [reflexivity|]. split; [rewrite T1; now rewrite <- app_assoc|].
      split; [reflexivity | discriminate]. }
    unfold bind at 1. unfold sendDir. step_ask.
    rewrite E1, Hd. step_printf. unfold bind at 1.
    match goal with |- context [sendDir_loop fd ?b entries ?w0] =>
      destruct (sendDir_loop_prefix fd entries b w0 malloc_buffer_length Hs)
        as [o [w2 [evs [tail [E2 [Ee2 [T2 [W2 O2]]]]]]]]
    end.
    rewrite E2. cbn [log trace] in T2.
    destruct O2 as [[b2 [-> [L2 ->]]] | ->].
    2:{ do 3 eexists. exists (tail ++ [frame DONE]).
        split; [reflexivity|].
        split; [rewrite T2, T1; rewrite <- !app_assoc; reflexivity|].
        split; [|discriminate].
        rewrite !written_app. cbn [written app].
        rewrite <- W2. now rewrite <- app_assoc. }
    unfold bind at 1.
    destruct (sendMsg_events fd b2 DONE w2 L2 Ndone)
      as [r3 [w3 [E3 [_ [_ [_ T3]]]]]];
      [rewrite buffer_len_eq; simpl; lia|].
    fold DONE. rewrite E3. rewrite app_nil_r in W2.
    destruct (r3 <? 0); cbv beta iota; unfold ret;
      do 3 eexists; exists []; (split; [reflexivity|]);
      (split; [rewrite T3, T2, T1; rewrite <- !app_assoc; reflexivity|]);
      (split; [|reflexivity]);
      rewrite app_nil_r, !written_app; cbn [written app];
      now rewrite W2. }
  destruct E as [o [w' [evs [tail [E [T [W R]]]]]]].
  exists tail. rewrite E. cbn [fst snd]. rewrite (added_app _ _ _ T).
  split; [exact W | exact R].
Qed.

Lemma listing_is_a_prefix_witness :
  exists tail,
    written (added (serving_world broken_pipe_env)
               (snd (handleRequest 5 (frame (lit "-l")) 5 51000
                       (serving_world broken_pipe_env)))) ++ tail =
      frame TAG_DIR
        :: map (fun name => frame (name ++ [LF]))
             (dir_names (env (serving_world broken_pipe_env)))
        ++ [frame DONE] /\
    (forall b,
       fst (handleRequest 5 (frame (lit "-l")) 5 51000
              (serving_world broken_pipe_env)) = Ret b ->
       tail = []).
Proof.
  apply (listing_is_a_prefix 5 (frame (lit "-l")) 5 51000
           (serving_world broken_pipe_env)
           [lit "."; lit ".."; lit "notes.txt"; lit "-log.txt"]).
  - reflexivity.
  - reflexivity.
  - reflexivity.
  - repeat constructor; vm_compute; lia.
Defined.

(** ** The bytes of a file on the wire *)

Lemma transmitted_conn_events (fd : Z) (evs : list event) :
  writes_on fd evs -> transmitted (conn_events fd evs) = transmitted evs.
Proof.
  unfold conn_events.
  induction 1 as [|e evs He _ IH]; [reflexivity|].
  destruct e; cbn [filter on_conn transmitted]; trivial.
  - subst. rewrite Z.eqb_refl. cbn [transmitted]. now rewrite IH.
  - destruct (fd0 =? fd); cbn [transmitted]; exact IH.
Qed.

Lemma transmitted_chunks (fd : Z) (chunks : list (list byte)) :
  transmitted (map (fun c => EvWrite fd c (Z.of_nat (length c))) chunks) =
  concat chunks.
Proof.
  induction chunks as [|c chunks IH]; [reflexivity|].
  cbn [map transmitted concat]. rewrite Nat2Z.id, firstn_all. now rewrite IH.
Qed.

(** X18.  On the wire, a file request that goes through puts 500 bytes of
    tag and then the file: when the name is listed, the file opens, no
    read fails and the transport takes every byte, the bytes that get
    through are the frame of "fil" followed by exactly the bytes of the
    file, so that the receiver finds the file by dropping the first 500
    bytes. *)
Theorem file_bytes_on_the_wire (fuel : nat) (buffer : list byte)
    (fd portNum : Z) (w : World) (content : list byte) (faults : nat -> bool) :
  length buffer = buffer_len ->
  terminated buffer = true ->
  firstn 2 buffer <> lit "-l" ->
  firstn 5 buffer <> lit "%none" ->
  In (until_nul buffer) (dir_names (env w)) ->
  env_fopen (env w) (until_nul buffer) = Some (content, faults) ->
  (forall k, faults k = false) ->
  full_writes (env w) ->
  (length content < 500 * (fuel - 1))%nat ->
  transmitted (added w (snd (handleRequest fuel buffer fd portNum w))) =
    frame TAG_FIL ++ content /\
  skipn 500
    (transmitted (added w (snd (handleRequest fuel buffer fd portNum w)))) =
    content.
Proof.
  intros Hb ET NL NN Hin Hfo Hf Hw Hl.
  destruct (handleRequest_file_run fuel buffer fd portNum w content faults
              Hb ET NL NN Hin Hfo Hf Hw Hl)
    as [w' [evs [chunks [E [_ [T [C [Cc _]]]]]]]].
  destruct (handleRequest_events fuel buffer fd portNum w)
    as [evs' [T' [F _]]].
  rewrite E in *. cbn [snd] in *. rewrite (added_app _ _ _ T).
  assert (evs' = evs) by (rewrite T in T'; now apply app_inv_head in T').
  subst evs'. destruct (dispatch_events fd evs F) as [Wo _].
  assert (Tr : transmitted evs = frame TAG_FIL ++ content).
  { rewrite <- (transmitted_conn_events fd evs Wo), C.
    cbn [transmitted]. rewrite transmitted_chunks, Cc.
    change (Z.to_nat BUFFER_SIZE) with buffer_len.
    rewrite <- (frame_length TAG_FIL) at 1
      by (rewrite buffer_len_eq; vm_compute; lia).
    now rewrite firstn_all. }
  split; [exact Tr|]. rewrite Tr.
  change 500%nat with buffer_len.
  rewrite <- (frame_length TAG_FIL) at 1
    by (rewrite buffer_len_eq; vm_compute; lia).
  rewrite skipn_app, skipn_all, Nat.sub_diag. reflexivity.
Qed.

Lemma file_bytes_on_the_wire_witness :
  transmitted (added (serving_world sample_env)
                 (snd (handleRequest 5 (frame (lit "notes.txt")) 5 51000
                         (serving_world sample_env)))) =
    frame TAG_FIL ++ (lit "hello" ++ [LF]) /\
  skipn 500
    (transmitted (added (serving_world sample_env)
                    (snd (handleRequest 5 (frame (lit "notes.txt")) 5 51000
                            (serving_world sample_env))))) =
    lit "hello" ++ [LF].
Proof.
  apply (file_bytes_on_the_wire 5 (frame (lit "notes.txt")) 5 51000
           (serving_world sample_env) (lit "hello" ++ [LF]) (fun _ => false)).
  - reflexivity.
  - reflexivity.
  - vm_compute. discriminate.
  - vm_compute. discriminate.
  - vm_compute. tauto.
  - reflexivity.
  - intro k. reflexivity.
  - intros t count H. reflexivity.
  - vm_compute. lia.
Defined.

(** ** Requests for a file, and the two prefixes *)

Lemma until_nul_firstn (n : nat) (s : list byte) :
  terminated (firstn n s) = true -> until_nul (firstn n s) = until_nul s.
Proof.
  unfold terminated. revert s.
  induction n as [|n IH]; intros [|c r]; cbn [firstn existsb until_nul];
    try discriminate.
  rewrite (byte_eqb_sym NUL c).
  destruct (Byte.eqb c NUL); cbn [orb]; [reflexivity|].
  intro H. f_equal. now apply IH.
Qed.

(** A message that arrives as a terminated string, shorter than the
    buffer or not, is received as the same string. *)
Lemma received_string (data : list byte) :
  terminated (received data) = true ->
  length (received data) = buffer_len /\
  until_nul (received data) = until_nul data.
Proof.
  unfold received. intro H.
  split; [apply frame_length, firstn_le_length|].
  destruct (Nat.lt_ge_cases (length data) buffer_len) as [L|L].
  - now apply received_command.
  - unfold frame in *.
    rewrite length_firstn, Nat.min_l, Nat.sub_diag in * by exact L.
    cbn [repeat] in *. rewrite app_nil_r in *.
    now apply until_nul_firstn.
Qed.

(** X19.  A client asks for a name of the working directory that begins
    neither with "-l" nor with "%none", in a command that arrives as a
    terminated string (shorter than the buffer, or padded with zeros to
    its 500 bytes); the file opens, no read of it fails and the transport
    takes every byte.  Then the turn of the loop returns, and the data
    connection sees the frame of the file-follows tag, then chunks of at
    most 500 bytes whose concatenation is the content of the file, then
    its close. *)
Theorem file_request_round_trip (fuel : nat) (listenSockFD : Z)
    (buffer cmd port : list byte) (rest : list (option (list byte)))
    (w : World) (content : list byte) (faults : nat -> bool) :
  length buffer = buffer_len ->
  inbox w = Some cmd :: Some port :: rest ->
  terminated (received cmd) = true ->
  In (until_nul cmd) (dir_names (env w)) ->
  firstn 2 (until_nul cmd) <> lit "-l" ->
  firstn 5 (until_nul cmd) <> lit "%none" ->
  env_fopen (env w) (until_nul cmd) = Some (content, faults) ->
  (forall k, faults k = false) ->
  full_writes (env w) ->
  (forall t, 0 <= env_accept (env w) t) ->
  (forall t, 0 <= env_socket (env w) t) ->
  (forall t, 0 <= env_connect (env w) t) ->
  (length content < 500 * (fuel - 1))%nat ->
  exists w' b dataSockFD,
    main_loop_body fuel listenSockFD buffer w = (Ret b, w') /\
    In (EvSocket dataSockFD) (added w w') /\
    file_response dataSockFD content (conn_events dataSockFD (added w w')).
Proof.
  intros Hb Hi RT Hin NL NN Hfo Hf Hw Ha Hs Hc Hfuel.
  destruct (main_loop_body_run fuel listenSockFD buffer cmd port rest w
              Hb Hi Ha Hs Hc)
    as [w1 [pre [dfd [dport [E [Ee [T [Wp [Cp Sp]]]]]]]]].
  destruct (received_string cmd RT) as [RL RU].
  unfold received in RT, RL, RU.
  rewrite E. unfold bind at 1.
  destruct (handleRequest_file_run fuel (frame (firstn buffer_len cmd))
              dfd dport w1 content faults)
    as [w2 [evs [chunks [E2 [Ee2 [T2 [C2 [Cc [Fc _]]]]]]]]]; trivial.
  { intro H. apply NL. rewrite <- RU.
    now apply (firstn_until_nul (lit "-l") _ lit_dash_l_no_nul). }
  { intro H. apply NN. rewrite <- RU.
    now apply (firstn_until_nul (lit "%none") _ lit_none_no_nul). }
  { now rewrite RU, Ee. }
  { now rewrite RU, Ee. }
  { now rewrite Ee. }
  rewrite E2. cbv beta iota.
  unfold bind, printf, close, emit, ret, log. cbn [env inbox trace].
  do 2 eexists. exists dfd. split; [reflexivity|].
  erewrite added_app
    by (cbn [trace]; rewrite T2, T; rewrite <- !app_assoc; reflexivity).
  split.
  - apply in_or_app. now left.
  - exists chunks. repeat split; trivial.
    rewrite !conn_events_app, Cp, C2. unfold conn_events.
    cbn [app filter on_conn]. rewrite Z.eqb_refl. reflexivity.
Qed.

Lemma file_request_round_trip_witness :
  exists w' b dataSockFD,
    main_loop_body 5 3 (malloc BUFFER_SIZE)
      (request_world sample_env (frame (lit "notes.txt"))) = (Ret b, w') /\
    In (EvSocket dataSockFD)
      (added (request_world sample_env (frame (lit "notes.txt"))) w') /\
    file_response dataSockFD (lit "hello" ++ [LF])
      (conn_events dataSockFD
         (added (request_world sample_env (frame (lit "notes.txt"))) w')).
Proof.
  apply (file_request_round_trip 5 3 (malloc BUFFER_SIZE)
           (frame (lit "notes.txt"))
           (lit "51000") [] (request_world sample_env (frame (lit "notes.txt")))
           (lit "hello" ++ [LF]) (fun _ => false)).
  - reflexivity.
  - reflexivity.
  - vm_compute. reflexivity.
  - vm_compute. tauto.
  - vm_compute. discriminate.
  - vm_compute. discriminate.
  - reflexivity.
  - intro k. reflexivity.
  - intros t count H. reflexivity.
  - intro t. vm_compute. discriminate.
  - intro t. vm_compute. discriminate.
  - intro t. vm_compute. discriminate.
  - vm_compute. lia.
Defined.

(** X20.  The dispatcher takes the listing path exactly when the first
    two bytes of the command are '-' and 'l': for the command "-l" and for
    every command that begins with it, and for no other. *)
Theorem listing_iff_prefix (fuel : nat) (buffer : list byte)
    (fd portNum : Z) (w : World) :
  length buffer = buffer_len ->
  takes_listing_path fuel buffer fd portNum w <->
  firstn 2 buffer = lit "-l".
Proof.
  intro Hb. unfold takes_listing_path.
  assert (Hd : In TAG_DIR [TAG_DIR; TAG_FIL; TAG_NOF; TAG_UNK])
    by (simpl; tauto).
  destruct (handleRequest_cases fuel buffer fd portNum w Hb)
    as [[L R] | [[L [_ R]] | [[L [_ [_ U]]] | [[L [_ [_ [_ R]]]]
       | [L [_ [_ [_ R]]]]]]]].
  - split; [intros _; exact L | intros _].
    destruct R as [evs [T [_ [_ P]]]]. now rewrite (added_app _ _ _ T).
  - split; [|contradiction]. intros [rest H]. exfalso.
    destruct R as [evs [T [_ [_ P]]]]. rewrite (added_app _ _ _ T), P in H.
    apply (f_equal (hd [])) in H. cbn [hd] in H.
    apply frame_tags_differ in H; [vm_compute in H; discriminate | | ];
      simpl; tauto.
  - split; [|contradiction]. intros [rest H]. exfalso.
    rewrite U in H. cbn [snd] in H. rewrite added_same in H. discriminate.
  - split; [|contradiction]. intros [rest H]. exfalso.
    destruct R as [evs [T [_ [_ [rest' P]]]]].
    rewrite (added_app _ _ _ T), P in H.
    apply (f_equal (hd [])) in H. cbn [hd] in H.
    apply frame_tags_differ in H; [vm_compute in H; discriminate | | ];
      simpl; tauto.
  - split; [|contradiction]. intros [rest H]. exfalso.
    destruct R as [evs [T [_ [_ P]]]]. rewrite (added_app _ _ _ T), P in H.
    apply (f_equal (hd [])) in H. cbn [hd] in H.
    apply frame_tags_differ in H; [vm_compute in H; discriminate | | ];
      simpl; tauto.
Qed.

Lemma listing_iff_prefix_witness :
  takes_listing_path 5 (frame (lit "-l")) 5 51000 (serving_world sample_env)
  <-> firstn 2 (frame (lit "-l")) = lit "-l".
Proof.
  apply (listing_iff_prefix 5 (frame (lit "-l")) 5 51000
           (serving_world sample_env)).
  reflexivity.
Defined.

(** X21.  A command that begins neither with "-l" nor with "%none" and
    names no entry of the working directory is answered with the
    file-not-found tag and nothing else: one write, of the frame of "nof",
    and the dispatcher returns unless that write fails. *)
Theorem absent_file_not_found (fuel : nat) (buffer : list byte)
    (fd portNum : Z) (w : World) :
  length buffer = buffer_len ->
  terminated buffer = true ->
  firstn 2 buffer <> lit "-l" ->
  firstn 5 buffer <> lit "%none" ->
  ~ In (until_nul buffer) (dir_names (env w)) ->
  written (added w (snd (handleRequest fuel buffer fd portNum w))) =
    [frame TAG_NOF] /\
  writes_on fd (added w (snd (handleRequest fuel buffer fd portNum w))) /\
  (no_write_error (env w) ->
   fst (handleRequest fuel buffer fd portNum w) = Ret (frame TAG_NOF)).
Proof.
  intros Hb ET NL NN Hn.
  destruct (handleRequest_nof_run fuel buffer fd portNum w Hb ET NL NN)
    as [r [w' [E [_ [R T]]]]].
  { now apply dir_lookup_spec. }
  rewrite E. cbn [fst snd]. rewrite (added_app _ _ _ T).
  repeat split.
  - destruct (r <? 0); reflexivity.
  - destruct (r <? 0); repeat constructor.
  - intro Hw. now rewrite (R Hw).
Qed.

Lemma absent_file_not_found_witness :
  written (added (serving_world sample_env)
             (snd (handleRequest 5 (frame (lit "nope.txt")) 5 51000
                     (serving_world sample_env)))) =
    [frame TAG_NOF] /\
  writes_on 5 (added (serving_world sample_env)
             (snd (handleRequest 5 (frame (lit "nope.txt")) 5 51000
                     (serving_world sample_env)))) /\
  (no_write_error (env (serving_world sample_env)) ->
   fst (handleRequest 5 (frame (lit "nope.txt")) 5 51000
          (serving_world sample_env)) = Ret (frame TAG_NOF)).
Proof.
  apply (absent_file_not_found 5 (frame (lit "nope.txt")) 5 51000
           (serving_world sample_env)).
  - reflexivity.
  - reflexivity.
  - vm_compute. discriminate.
  - vm_compute. discriminate.
  - vm_compute. intuition discriminate.
Defined.
